(** * Shoelace Localize: the translation registry and the LocalizeController

    A shallow embedding of the reactive-controller module (registerTranslation,
    update, LocalizeController with getTranslationData / exists / term) and of
    the earlier stand-alone module src/index.ts (term keyed on the first two
    characters of the tag), with the properties of the resolution tiers, the
    registry, the fallback and the set of connected elements.

    Strings are sequences of code units; tags, codes and keys are ASCII. *)

From Stdlib Require Import Ascii String.
From stdpp Require Import gmap strings list fin_maps.

Open Scope string_scope.

(** ** JavaScript values held by a translation

    A term is a literal or a function of the call's arguments.  Numbers stand
    for integer-valued JS numbers (NaN is not represented).  Besides the
    primitives, a value that is not a function can be one of the objects that
    the properties of [Object.prototype] hand out: [Object.prototype] itself
    (through [__proto__]), and what [Object(value)] returns. *)

Inductive js_object : Type :=
  | ObjectPrototype
  | NewObject
  | BooleanObject (b : bool)
  | NumberObject (n : Z)
  | StringObject (s : string).

Inductive prim : Type :=
  | PUndefined
  | PNull
  | PBool (b : bool)
  | PNum (n : Z)
  | PStr (s : string)
  | PObject (o : js_object).

(** The function-valued properties of [Object.prototype]. *)
Inductive builtin : Type :=
  | Object_constructor
  | Object_defineGetter
  | Object_defineSetter
  | Object_hasOwnProperty
  | Object_lookupGetter
  | Object_lookupSetter
  | Object_isPrototypeOf
  | Object_propertyIsEnumerable
  | Object_toString
  | Object_valueOf
  | Object_toLocaleString.

Inductive value : Type :=
  | Prim (p : prim)
  | Fun (f : list prim → prim)
  | Builtin (b : builtin).

(** ToBoolean: what [a && b] and [if (a)] test. *)
Definition truthy (v : value) : bool :=
  match v with
  | Prim PUndefined | Prim PNull => false
  | Prim (PBool b) => b
  | Prim (PNum n) => negb (Z.eqb n 0)
  | Prim (PStr s) => negb (String.eqb s "")
  | Prim (PObject _) => true
  | Fun _ => true
  | Builtin _ => true
  end.

(** A translation is a plain object: its own properties, [$code], [$name] and
    [$dir] among them, on top of what it inherits from [Object.prototype]. *)
Abbreviation Translation := (gmap string value).

(** The properties of [Object.prototype], as a read of an object that
    inherits them sees them; the getter of [__proto__] answers with the
    prototype of the object it is read from. *)
Definition Object_prototype : gmap string value :=
  list_to_map
    [("constructor", Builtin Object_constructor);
     ("__defineGetter__", Builtin Object_defineGetter);
     ("__defineSetter__", Builtin Object_defineSetter);
     ("hasOwnProperty", Builtin Object_hasOwnProperty);
     ("__lookupGetter__", Builtin Object_lookupGetter);
     ("__lookupSetter__", Builtin Object_lookupSetter);
     ("isPrototypeOf", Builtin Object_isPrototypeOf);
     ("propertyIsEnumerable", Builtin Object_propertyIsEnumerable);
     ("toString", Builtin Object_toString);
     ("valueOf", Builtin Object_valueOf);
     ("__proto__", Prim (PObject ObjectPrototype));
     ("toLocaleString", Builtin Object_toLocaleString)].

(** What a read finds when the object has no own property of that name. *)
Definition inherited (key : string) : value :=
  default (Prim PUndefined) (Object_prototype !! key).

(** [t[key]]: the own property, else the inherited one, else undefined. *)
Definition prop (t : Translation) (key : string) : value :=
  match t !! key with
  | Some v => v
  | None => inherited key
  end.

(** [{ ...a, ...b }]: the properties of [b] win. *)
Definition spread (a b : Translation) : Translation := b ∪ a.

(** [a || b] on strings: the empty string is falsy. *)
Definition or_else (a b : string) : string :=
  if String.eqb a "" then b else a.

(** [s.replace(/_/g, '-')] *)
Fixpoint replace_underscores (s : string) : string :=
  match s with
  | EmptyString => EmptyString
  | String c rest =>
      String (if Ascii.eqb c "_"%char then "-"%char else c) (replace_underscores rest)
  end.

(** [s.slice(0, 2)] *)
Definition slice02 (s : string) : string := String.substring 0 2 s.

(** ** Exceptions and results *)

Inductive error : Type := RangeError | TypeError.

Inductive outcome (A : Type) : Type :=
  | Ok (a : A)
  | Throw (e : error).
Arguments Ok {A} a.
Arguments Throw {A} e.

Definition is_ok {A} (o : outcome A) : bool :=
  match o with Ok _ => true | Throw _ => false end.

(** A call [f(...args)] of a function of [Object.prototype] that was read off
    an object and is called on its own, so that [this] is undefined (module
    code is strict).  All but three start with [ToObject(this)] and raise a
    TypeError; [toString] answers for undefined, [isPrototypeOf] answers
    false for a first argument that is not an object before it looks at
    [this], and [Object] makes an object of its first argument. *)
Definition call_builtin (b : builtin) (args : list prim) : outcome prim :=
  match b with
  | Object_toString => Ok (PStr "[object Undefined]")
  | Object_isPrototypeOf =>
      match args with
      | PObject _ :: _ => Throw TypeError
      | _ => Ok (PBool false)
      end
  | Object_constructor =>
      match args with
      | [] | PUndefined :: _ | PNull :: _ => Ok (PObject NewObject)
      | PBool b :: _ => Ok (PObject (BooleanObject b))
      | PNum n :: _ => Ok (PObject (NumberObject n))
      | PStr s :: _ => Ok (PObject (StringObject s))
      | PObject o :: _ => Ok (PObject o)
      end
  | Object_defineGetter | Object_defineSetter | Object_hasOwnProperty
  | Object_lookupGetter | Object_lookupSetter | Object_propertyIsEnumerable
  | Object_valueOf | Object_toLocaleString => Throw TypeError
  end.

(** ** The platform

    [String.prototype.toLowerCase] and the [Intl.Locale] constructor are
    built-ins of the host; the module only relies on their interface.  Of a
    locale only [language] and [region] are read. *)

Record Locale : Type := mkLocale {
  language : string;
  region : option string
}.

Class Platform : Type := {
  toLowerCase : string → string;
  Intl_Locale : string → outcome Locale
}.

(** ** The document and the host elements

    The module reads the attributes of [<html>], [navigator.language] and the
    [lang] / [dir] properties of a host, and calls a host's [requestUpdate]
    when it is a function.  Hosts are known by identity. *)

Abbreviation Host := nat.

Record Element : Type := mkElement {
  el_lang : string;
  el_dir : string;
  el_requestUpdate : bool
}.

Record Dom : Type := mkDom {
  isClient : bool;
  html_dir : string;
  html_lang : string;
  navigator_language : string;
  element : Host → Element
}.

(** ** Module state

    The module-level bindings, followed by the two effects that leave the
    module: lines written by [console.error] and the calls of
    [requestUpdate], oldest first. *)

Record state : Type := mkState {
  connectedElements : list Host;
  translations : gmap string Translation;
  fallback : option Translation;
  documentDirection : string;
  documentLanguage : string;
  console_error : list string;
  requested : list Host
}.

Definition set_connectedElements (l : list Host) (σ : state) : state :=
  mkState l (translations σ) (fallback σ) (documentDirection σ)
          (documentLanguage σ) (console_error σ) (requested σ).

Definition set_translations (m : gmap string Translation) (σ : state) : state :=
  mkState (connectedElements σ) m (fallback σ) (documentDirection σ)
          (documentLanguage σ) (console_error σ) (requested σ).

Definition set_fallback (f : option Translation) (σ : state) : state :=
  mkState (connectedElements σ) (translations σ) f (documentDirection σ)
          (documentLanguage σ) (console_error σ) (requested σ).

Definition set_document (d l : string) (σ : state) : state :=
  mkState (connectedElements σ) (translations σ) (fallback σ) d l
          (console_error σ) (requested σ).

Definition log_error (line : string) (σ : state) : state :=
  mkState (connectedElements σ) (translations σ) (fallback σ)
          (documentDirection σ) (documentLanguage σ)
          (console_error σ ++ [line]) (requested σ).

Definition log_requests (hs : list Host) (σ : state) : state :=
  mkState (connectedElements σ) (translations σ) (fallback σ)
          (documentDirection σ) (documentLanguage σ)
          (console_error σ) (requested σ ++ hs).

(** The state once the module has been loaded. *)
Definition initial (dom : Dom) : state :=
  mkState [] ∅ None
          (if isClient dom then or_else (html_dir dom) "ltr" else "ltr")
          (if isClient dom then or_else (html_lang dom) (navigator_language dom) else "en")
          [] [].

(** [Set.prototype.add] and [Set.prototype.delete]; a Set iterates in insertion
    order. *)
Definition set_add (h : Host) (l : list Host) : list Host :=
  if bool_decide (h ∈ l) then l else l ++ [h].

Definition set_delete (h : Host) (l : list Host) : list Host :=
  filter (λ x, x ≠ h) l.

(** [t.$code] when it is a string, as the [Translation] interface demands;
    [t.$code.toLowerCase()] raises a TypeError otherwise. *)
Definition code_of (t : Translation) : option string :=
  match t !! "$code" with
  | Some (Prim (PStr c)) => Some c
  | _ => None
  end.

(** The tests [o && o[key]] and the reads [o[key]] of the lookups. *)
Definition hit (o : option Translation) (key : string) : bool :=
  match o with
  | Some t => truthy (prop t key)
  | None => false
  end.

Definition read (o : option Translation) (key : string) : value :=
  match o with
  | Some t => prop t key
  | None => Prim PUndefined
  end.

(** [typeof term === 'function' ? term(...args) : term] *)
Definition render (v : value) (args : list prim) : outcome prim :=
  match v with
  | Fun f => Ok (f args)
  | Builtin b => call_builtin b args
  | Prim p => Ok p
  end.

Definition no_translation (key : string) : string :=
  "No translation found for: " ++ key.

Section Localize.

Context `{Platform}.

(** [update] *)
Definition update (dom : Dom) (σ : state) : state :=
  let σ1 :=
    if isClient dom
    then set_document (or_else (html_dir dom) "ltr")
                      (or_else (html_lang dom) (navigator_language dom)) σ
    else σ in
  log_requests
    (filter (λ el, el_requestUpdate (element dom el) = true) (connectedElements σ1))
    σ1.

(** The body of [translation.map(t => ...)] in [registerTranslation]. *)
Definition register_one (t : Translation) (σ : state) : outcome unit * state :=
  match code_of t with
  | None => (Throw TypeError, σ)
  | Some c =>
      let code := toLowerCase c in
      let σ1 :=
        match translations σ !! code with
        | Some old => set_translations (<[code := spread old t]> (translations σ)) σ
        | None => set_translations (<[code := t]> (translations σ)) σ
        end in
      let σ2 :=
        match fallback σ1 with
        | None => set_fallback (Some t) σ1
        | Some _ => σ1
        end in
      (Ok (), σ2)
  end.

Fixpoint register_each (ts : list Translation) (σ : state) : outcome unit * state :=
  match ts with
  | [] => (Ok (), σ)
  | t :: rest =>
      match register_one t σ with
      | (Ok _, σ') => register_each rest σ'
      | (Throw e, σ') => (Throw e, σ')
      end
  end.

(** [registerTranslation(...translation)] *)
Definition registerTranslation (dom : Dom) (ts : list Translation) (σ : state)
  : outcome unit * state :=
  match register_each ts σ with
  | (Ok _, σ') => (Ok (), update dom σ')
  | (Throw e, σ') => (Throw e, σ')
  end.

(** *** LocalizeController, bound to its host *)

Definition hostConnected (h : Host) (σ : state) : state :=
  set_connectedElements (set_add h (connectedElements σ)) σ.

Definition hostDisconnected (h : Host) (σ : state) : state :=
  set_connectedElements (set_delete h (connectedElements σ)) σ.

Definition dir (dom : Dom) (σ : state) (h : Host) : string :=
  toLowerCase (or_else (el_dir (element dom h)) (documentDirection σ)).

Definition lang (dom : Dom) (σ : state) (h : Host) : string :=
  toLowerCase (or_else (el_lang (element dom h)) (documentLanguage σ)).

Record TranslationData : Type := mkData {
  locale : Locale;
  data_language : string;
  data_region : string;
  primary : option Translation;
  secondary : option Translation
}.

Definition getTranslationData (σ : state) (tag : string) : outcome TranslationData :=
  match Intl_Locale (replace_underscores tag) with
  | Throw e => Throw e
  | Ok loc =>
      let language := toLowerCase (language loc) in
      let region :=
        match region loc with
        | Some r => toLowerCase r
        | None => ""
        end in
      Ok (mkData loc language region
                 (translations σ !! (language ++ "-" ++ region))
                 (translations σ !! language))
  end.

(** [Partial<ExistsOptions>] *)
Record ExistsOptions : Type := mkOptions {
  opt_lang : option string;
  opt_includeFallback : option bool
}.

Definition exists_ (dom : Dom) (σ : state) (h : Host) (key : string)
    (options : ExistsOptions) : outcome bool * state :=
  match getTranslationData σ (default (lang dom σ h) (opt_lang options)) with
  | Throw e => (Throw e, σ)
  | Ok d =>
      let includeFallback := default false (opt_includeFallback options) in
      if hit (primary d) key
         || hit (secondary d) key
         || (includeFallback && hit (fallback σ) key)
      then (Ok true, σ)
      else (Ok false, σ)
  end.

Definition term (dom : Dom) (σ : state) (h : Host) (key : string)
    (args : list prim) : outcome prim * state :=
  match getTranslationData σ (lang dom σ h) with
  | Throw e => (Throw e, σ)
  | Ok d =>
      if hit (primary d) key then (render (read (primary d) key) args, σ)
      else if hit (secondary d) key then (render (read (secondary d) key) args, σ)
      else if hit (fallback σ) key then (render (read (fallback σ) key) args, σ)
      else (Ok (PStr key), log_error (no_translation key) σ)
  end.

End Localize.

(** ** Runs of the module

    What can happen to a loaded module, one event at a time: a host attaches or
    detaches, translations are registered, the MutationObserver (or the
    application) calls [update], a controller is asked for a term or for the
    existence of one, and the page changes the document or its elements
    behind the module's back. *)

Inductive event : Type :=
  | EHostConnected (h : Host)
  | EHostDisconnected (h : Host)
  | ERegisterTranslation (ts : list Translation)
  | EUpdate
  | ETerm (h : Host) (key : string) (args : list prim)
  | EExists (h : Host) (key : string) (options : ExistsOptions)
  | EDomChanged (dom : Dom).

Section Runs.

Context `{Platform}.

(** An exception reaches the caller; the module keeps the state it had when
    the exception was raised. *)
Definition step (ev : event) (w : Dom * state) : Dom * state :=
  let (dom, σ) := w in
  match ev with
  | EHostConnected h => (dom, hostConnected h σ)
  | EHostDisconnected h => (dom, hostDisconnected h σ)
  | ERegisterTranslation ts => (dom, snd (registerTranslation dom ts σ))
  | EUpdate => (dom, update dom σ)
  | ETerm h key args => (dom, snd (term dom σ h key args))
  | EExists h key options => (dom, snd (exists_ dom σ h key options))
  | EDomChanged dom' => (dom', σ)
  end.

Fixpoint run (evs : list event) (w : Dom * state) : Dom * state :=
  match evs with
  | [] => w
  | ev :: rest => run rest (step ev w)
  end.

End Runs.

(** Whether an event is the attachment of [h]. *)
Definition attaches (h : Host) (ev : event) : bool :=
  match ev with
  | EHostConnected h' => bool_decide (h' = h)
  | _ => false
  end.

(** ** src/index.ts: the stand-alone functions of the earlier module

    The same module-level bindings; a registration replaces the entry of its
    code, and [term] takes the tag as its first argument. *)

Module Index.
Section Index.

Context `{Platform}.

Definition update (dom : Dom) (σ : state) : state :=
  let σ1 := set_document (or_else (html_dir dom) "ltr")
                         (or_else (html_lang dom) (navigator_language dom)) σ in
  log_requests
    (filter (λ el, el_requestUpdate (element dom el) = true) (connectedElements σ1))
    σ1.

Definition register_one (t : Translation) (σ : state) : outcome unit * state :=
  match code_of t with
  | None => (Throw TypeError, σ)
  | Some c =>
      let code := toLowerCase c in
      let σ1 := set_translations (<[code := t]> (translations σ)) σ in
      let σ2 :=
        match fallback σ1 with
        | None => set_fallback (Some t) σ1
        | Some _ => σ1
        end in
      (Ok (), σ2)
  end.

Fixpoint register_each (ts : list Translation) (σ : state) : outcome unit * state :=
  match ts with
  | [] => (Ok (), σ)
  | t :: rest =>
      match register_one t σ with
      | (Ok _, σ') => register_each rest σ'
      | (Throw e, σ') => (Throw e, σ')
      end
  end.

Definition registerTranslation (dom : Dom) (ts : list Translation) (σ : state)
  : outcome unit * state :=
  match register_each ts σ with
  | (Ok _, σ') => (Ok (), update dom σ')
  | (Throw e, σ') => (Throw e, σ')
  end.

Definition term (σ : state) (lang key : string) (args : list prim)
  : outcome prim * state :=
  let code := slice02 (toLowerCase lang) in
  let subcode := if Nat.ltb 2 (String.length lang) then toLowerCase lang else "" in
  let primary := translations σ !! subcode in
  let secondary := translations σ !! code in
  if hit primary key then (render (read primary key) args, σ)
  else if hit secondary key then (render (read secondary key) args, σ)
  else if hit (fallback σ) key then (render (read (fallback σ) key) args, σ)
  else (Ok (PStr key), log_error (no_translation key) σ).

(** The methods of the [LocalizeController] of src/index.ts; [hostConnected]
    and [hostDisconnected] are those above. *)
Definition dir (dom : Dom) (σ : state) (h : Host) : string :=
  toLowerCase (or_else (el_dir (element dom h)) (documentDirection σ)).

Definition lang (dom : Dom) (σ : state) (h : Host) : string :=
  toLowerCase (or_else (el_lang (element dom h)) (documentLanguage σ)).

Definition controller_term (dom : Dom) (σ : state) (h : Host) (key : string)
    (args : list prim) : outcome prim * state :=
  term σ (or_else (el_lang (element dom h)) (documentLanguage σ)) key args.

End Index.
End Index.

(** ** A reference platform

    ASCII lower-casing, and the structural grammar of Unicode locale
    identifiers (UTS 35) that [new Intl.Locale(tag)] enforces: a language
    subtag of 2-3 or 5-8 letters, then an optional script of 4 letters, an
    optional region of 2 letters or 3 digits, variants, extensions and a
    private-use tail.  A tag outside the grammar raises a RangeError.  The
    replacement of deprecated subtags from the CLDR alias tables and the
    rejection of repeated variants are not reproduced. *)

Module Reference.

Definition in_range (lo hi : nat) (c : ascii) : bool :=
  Nat.leb lo (nat_of_ascii c) && Nat.leb (nat_of_ascii c) hi.

Definition is_upper : ascii → bool := in_range 65 90.
Definition is_lower : ascii → bool := in_range 97 122.
Definition is_digit : ascii → bool := in_range 48 57.
Definition is_alpha (c : ascii) : bool := is_upper c || is_lower c.
Definition is_alnum (c : ascii) : bool := is_alpha c || is_digit c.

Definition lower_char (c : ascii) : ascii :=
  if is_upper c then ascii_of_nat (nat_of_ascii c + 32) else c.

Definition upper_char (c : ascii) : ascii :=
  if is_lower c then ascii_of_nat (nat_of_ascii c - 32) else c.

Fixpoint map_chars (f : ascii → ascii) (s : string) : string :=
  match s with
  | EmptyString => EmptyString
  | String c rest => String (f c) (map_chars f rest)
  end.

Fixpoint all_chars (p : ascii → bool) (s : string) : bool :=
  match s with
  | EmptyString => true
  | String c rest => p c && all_chars p rest
  end.

Definition lower : string → string := map_chars lower_char.
Definition upper : string → string := map_chars upper_char.

Fixpoint subtags (s : string) : list string :=
  match s with
  | EmptyString => [EmptyString]
  | String c rest =>
      if Ascii.eqb c "-"%char then EmptyString :: subtags rest
      else match subtags rest with
           | x :: xs => String c x :: xs
           | [] => [String c EmptyString]
           end
  end.

Definition len_in (lo hi : nat) (s : string) : bool :=
  Nat.leb lo (String.length s) && Nat.leb (String.length s) hi.

Definition is_language (s : string) : bool :=
  all_chars is_alpha s && (len_in 2 3 s || len_in 5 8 s).

Definition is_script (s : string) : bool :=
  all_chars is_alpha s && len_in 4 4 s.

Definition is_region (s : string) : bool :=
  (all_chars is_alpha s && len_in 2 2 s) || (all_chars is_digit s && len_in 3 3 s).

Definition is_variant (s : string) : bool :=
  all_chars is_alnum s
  && (len_in 5 8 s
      || (len_in 4 4 s && match s with String c _ => is_digit c | EmptyString => false end)).

Definition is_singleton (s : string) : bool :=
  all_chars is_alnum s && len_in 1 1 s.

Definition is_private_singleton (s : string) : bool :=
  String.eqb (lower s) "x".

Inductive tail_mode : Type :=
  | Variants | ExtensionFirst | Extension | PrivateFirst | Private.

Fixpoint tail_ok (mode : tail_mode) (l : list string) : bool :=
  match l with
  | [] =>
      match mode with
      | Variants | Extension | Private => true
      | ExtensionFirst | PrivateFirst => false
      end
  | s :: rest =>
      match mode with
      | Variants =>
          if is_variant s then tail_ok Variants rest
          else if is_private_singleton s then tail_ok PrivateFirst rest
          else if is_singleton s then tail_ok ExtensionFirst rest
          else false
      | ExtensionFirst =>
          if all_chars is_alnum s && len_in 2 8 s then tail_ok Extension rest else false
      | Extension =>
          if all_chars is_alnum s && len_in 2 8 s then tail_ok Extension rest
          else if is_private_singleton s then tail_ok PrivateFirst rest
          else if is_singleton s then tail_ok ExtensionFirst rest
          else false
      | PrivateFirst | Private =>
          if all_chars is_alnum s && len_in 1 8 s then tail_ok Private rest else false
      end
  end.

Definition take_if (p : string → bool) (l : list string) : option string * list string :=
  match l with
  | s :: rest => if p s then (Some s, rest) else (None, l)
  | [] => (None, [])
  end.

Definition parse_locale (tag : string) : outcome Locale :=
  match subtags tag with
  | l :: rest =>
      if is_language l then
        let (_, rest1) := take_if is_script rest in
        let (reg, rest2) := take_if is_region rest1 in
        if tail_ok Variants rest2
        then Ok (mkLocale (lower l) (upper <$> reg))
        else Throw RangeError
      else Throw RangeError
  | [] => Throw RangeError
  end.

Definition platform : Platform :=
  {| toLowerCase := lower; Intl_Locale := parse_locale |}.

End Reference.

(** A host with the given [lang], no [dir], and a [requestUpdate] method. *)
Definition lit_element (l : string) : Element := mkElement l "" true.

(** A client document [<html lang=l>] whose host [n] carries [langs n]. *)
Definition page (l : string) (langs : Host → string) : Dom :=
  mkDom true "" l "en-US" (λ h, lit_element (langs h)).

(** An object literal. *)
Definition object (fields : list (string * value)) : Translation :=
  list_to_map fields.

Definition str (s : string) : value := Prim (PStr s).

(** ** Vocabulary of the properties *)

(** An entry yields [v] for [key]: it exists and [entry[key]] reads the
    truthy [v], from an own property or from an inherited one. *)
Definition yields (o : option Translation) (key : string) (v : value) : Prop :=
  ∃ t, o = Some t ∧ prop t key = v ∧ truthy v = true.

(** An entry defines [key]: it exists and has the property, whatever its value. *)
Definition defines (o : option Translation) (key : string) (v : value) : Prop :=
  ∃ t, o = Some t ∧ t !! key = Some v.

(** An entry is silent on [key]: absent, or such that [entry[key]] reads a
    falsy value. *)
Definition silent (o : option Translation) (key : string) : Prop :=
  ∀ t, o = Some t → truthy (prop t key) = false.

(** [key] is not one of the names that objects inherit. *)
Definition not_inherited (key : string) : Prop := Object_prototype !! key = None.

(** Two strings that differ at most in the spelling of their separators:
    an underscore on one side where the other has a hyphen. *)
Definition is_separator (c : ascii) : bool :=
  Ascii.eqb c "_"%char || Ascii.eqb c "-"%char.

Fixpoint same_but_separators (s1 s2 : string) : bool :=
  match s1, s2 with
  | EmptyString, EmptyString => true
  | String c1 r1, String c2 r2 =>
      (Ascii.eqb c1 c2 || (is_separator c1 && is_separator c2))
      && same_but_separators r1 r2
  | _, _ => false
  end.

(** Whether a string holds an underscore. *)
Fixpoint has_underscore (s : string) : bool :=
  match s with
  | EmptyString => false
  | String c rest => Ascii.eqb c "_"%char || has_underscore rest
  end.

(** First match wins over three candidates. *)
Inductive first_match (t1 t2 t3 : option Translation) (key : string) : value → Prop :=
  | match_region v :
      yields t1 key v → first_match t1 t2 t3 key v
  | match_language v :
      silent t1 key → yields t2 key v → first_match t1 t2 t3 key v
  | match_fallback v :
      silent t1 key → silent t2 key → yields t3 key v → first_match t1 t2 t3 key v.

(** A translation without its falsy properties, and a state whose registry
    and fallback hold only such translations. *)
Definition truthy_part (t : Translation) : Translation :=
  filter (λ kv, truthy kv.2 = true) t.

Definition prune (σ : state) : state :=
  set_fallback (truthy_part <$> fallback σ)
    (set_translations (truthy_part <$> translations σ) σ).

Section Tiers.

Context `{Platform}.

(** The registry keys of a parsed locale: [language-region] and [language]. *)
Definition language_code (loc : Locale) : string := toLowerCase (language loc).

Definition region_code (loc : Locale) : string :=
  match region loc with
  | Some r => toLowerCase r
  | None => ""
  end.

Definition region_entry (σ : state) (loc : Locale) : option Translation :=
  translations σ !! (language_code loc ++ "-" ++ region_code loc).

Definition language_entry (σ : state) (loc : Locale) : option Translation :=
  translations σ !! language_code loc.

(** The two registry keys that src/index.ts derives from a tag. *)
Definition index_subcode (tag : string) : string :=
  if Nat.ltb 2 (String.length tag) then toLowerCase tag else "".

Definition index_code (tag : string) : string := slice02 (toLowerCase tag).

End Tiers.

(** ** src/localize.ts and src/lit.ts: the decorator-based module

    Here the connected elements are a Map from element to the language found
    for it, [translate] raises an Error for a missing term, and the language
    of an element is looked up through its ancestors. *)

Module Localize.

(** What [closest] and [getRootNode] read of the page: an element with its
    [lang] attribute, if any, sits under another element, directly under a
    shadow root (which has a host element), directly under the document, or
    under nothing when its tree is detached. *)
Inductive element : Type :=
  | Element (lang : option string) (parent : above)
with above : Type :=
  | Parent (el : element)
  | ShadowRoot (host : element)
  | Document
  | Detached.

(** What [getRootNode] can return. *)
Inductive root : Type :=
  | RootDocument
  | RootShadow (host : element)
  | RootElement (el : element).

(** [el.closest('[lang]')]: the element or its nearest ancestor element in
    the same tree that has the attribute. *)
Fixpoint Element_closest (el : element) : option element :=
  match el with
  | Element (Some _) _ => Some el
  | Element None (Parent parent) => Element_closest parent
  | Element None _ => None
  end.

(** [el.getRootNode()] *)
Fixpoint getRootNode (el : element) : root :=
  match el with
  | Element _ (Parent parent) => getRootNode parent
  | Element _ (ShadowRoot h) => RootShadow h
  | Element _ Document => RootDocument
  | Element _ Detached => RootElement el
  end.

(** [root.host]: defined on shadow roots only. *)
Definition host (r : root) : option element :=
  match r with
  | RootShadow h => Some h
  | _ => None
  end.

(** [el.lang] *)
Definition lang_property (el : element) : string :=
  match el with
  | Element (Some l) _ => l
  | Element None _ => ""
  end.

Fixpoint depth (el : element) : nat :=
  match el with
  | Element _ (Parent parent) => S (depth parent)
  | Element _ (ShadowRoot h) => S (depth h)
  | Element _ _ => 0
  end.

(** [getNext] inside [closest('[lang]', root)]; its argument is an element
    or undefined.  The outer option is the fuel: [None] when the recursion
    was cut short. *)
Fixpoint getNext (fuel : nat) (el : option element) : option (option element) :=
  match fuel with
  | 0 => None
  | S fuel' =>
      match el with
      | None => Some None
      | Some e =>
          match Element_closest e with
          | Some next => Some (Some next)
          | None => getNext fuel' (host (getRootNode e))
          end
      end
  end.

Definition closest (el : element) : option (option element) :=
  getNext (S (S (depth el))) (Some el).

(** [detectLanguage(el)]: [closestEl?.lang], undefined when nothing is found. *)
Definition detectLanguage (el : element) : option string :=
  match closest el with
  | Some (Some found) => Some (lang_property found)
  | _ => None
  end.

(** The page: where each element sits, and whether it has [requestUpdate]. *)
Record Page : Type := mkPage {
  place : Host → element;
  has_requestUpdate : Host → bool
}.

Record state : Type := mkState {
  connectedElements : list (Host * option string);
  translations : gmap string Translation;
  fallback : option Translation;
  requested : list Host
}.

(** [Map.prototype.get], [set] and [delete]; a Map keeps the place of a key
    that is set again. *)
Fixpoint map_get (el : Host) (m : list (Host * option string)) : option (option string) :=
  match m with
  | [] => None
  | (k, v) :: rest => if bool_decide (k = el) then Some v else map_get el rest
  end.

Fixpoint map_set (el : Host) (v : option string) (m : list (Host * option string))
  : list (Host * option string) :=
  match m with
  | [] => [(el, v)]
  | (k, w) :: rest =>
      if bool_decide (k = el) then (k, v) :: rest else (k, w) :: map_set el v rest
  end.

Definition map_delete (el : Host) (m : list (Host * option string))
  : list (Host * option string) :=
  filter (λ kv, kv.1 ≠ el) m.

Definition set_connected (m : list (Host * option string)) (σ : state) : state :=
  mkState m (translations σ) (fallback σ) (requested σ).

Definition request (el : Host) (σ : state) : state :=
  mkState (connectedElements σ) (translations σ) (fallback σ) (requested σ ++ [el]).

(** The Error that [translate] raises. *)
Definition cannot_find (key : string) : string :=
  "Cannot find " ++ String (ascii_of_nat 34) EmptyString ++ key
  ++ String (ascii_of_nat 34) EmptyString ++ " to translate.".

Inductive translated : Type :=
  | Returns (p : prim)
  | ThrowsError (message : string)
  | ThrowsTypeError.

(** How the call of a function-valued term ends inside [translate]. *)
Definition translated_of (r : outcome prim) : translated :=
  match r with
  | Ok p => Returns p
  | Throw _ => ThrowsTypeError
  end.

Section Localize.

Context `{Platform}.

Definition register_one (t : Translation) (σ : state) : outcome unit * state :=
  match code_of t with
  | None => (Throw TypeError, σ)
  | Some c =>
      let σ1 := mkState (connectedElements σ) (<[toLowerCase c := t]> (translations σ))
                        (fallback σ) (requested σ) in
      let σ2 :=
        match fallback σ1 with
        | None => mkState (connectedElements σ1) (translations σ1) (Some t) (requested σ1)
        | Some _ => σ1
        end in
      (Ok (), σ2)
  end.

Fixpoint registerTranslation (ts : list Translation) (σ : state) : outcome unit * state :=
  match ts with
  | [] => (Ok (), σ)
  | t :: rest =>
      match register_one t σ with
      | (Ok _, σ') => registerTranslation rest σ'
      | (Throw e, σ') => (Throw e, σ')
      end
  end.

Definition translate (σ : state) (lang key : string) (args : list prim) : translated :=
  let code := slice02 (toLowerCase lang) in
  let subcode := if Nat.ltb 2 (String.length lang) then toLowerCase lang else "" in
  let primary := translations σ !! subcode in
  let secondary := translations σ !! code in
  if hit primary key then translated_of (render (read primary key) args)
  else if hit secondary key then translated_of (render (read secondary key) args)
  else if hit (fallback σ) key then translated_of (render (read (fallback σ) key) args)
  else ThrowsError (cannot_find key).

(** One round of the loop of [forceUpdate]. *)
Definition refresh (page : Page) (σ : state) (el : Host) : state :=
  let σ1 := set_connected
              (map_set el (detectLanguage (place page el)) (connectedElements σ)) σ in
  if has_requestUpdate page el then request el σ1 else σ1.

Definition forceUpdate (page : Page) (σ : state) : state :=
  fold_left (refresh page) (map fst (connectedElements σ)) σ.

(** src/lit.ts: the callbacks that the decorator adds, and
    [TranslateDirective.render]. *)
Definition connectedCallback (page : Page) (el : Host) (σ : state) : state :=
  set_connected (map_set el (detectLanguage (place page el)) (connectedElements σ)) σ.

Definition disconnectedCallback (el : Host) (σ : state) : state :=
  set_connected (map_delete el (connectedElements σ)) σ.

Definition TranslateDirective_render (σ : state) (host : option Host) (key : string)
    (args : list prim) : translated :=
  let lang :=
    match host with
    | Some h =>
        match map_get h (connectedElements σ) with
        | Some (Some l) => or_else l ""
        | _ => ""
        end
    | None => ""
    end in
  translate σ lang key args.

End Localize.

(** The language of the nearest element that carries one, going up through
    parents and out of shadow roots through their hosts. *)
Fixpoint nearest_lang (el : element) : option string :=
  match el with
  | Element (Some l) _ => Some l
  | Element None (Parent parent) => nearest_lang parent
  | Element None (ShadowRoot h) => nearest_lang h
  | Element None _ => None
  end.

End Localize.

(** How often [h] occurs among the hosts of a list of [requestUpdate] calls. *)
Definition calls_on (h : Host) (calls : list Host) : nat :=
  length (filter (λ x, x = h) calls).

(** An event that leaves the module without a document: any event but a
    change to a page that has one. *)
Definition without_document (ev : event) : bool :=
  match ev with
  | EDomChanged dom => negb (isClient dom)
  | _ => true
  end.

(** A translation with a string [$code], as the interface demands. *)
Definition coded (t : Translation) : Prop := is_Some (code_of t).

(** ** Sample translations and pages *)

Module Samples.

Definition greet_en : value :=
  Fun (λ args,
    match args with
    | PStr name :: _ => PStr ("Hello, " ++ name ++ "!")
    | _ => PStr "Hello, undefined!"
    end).

Definition en : Translation :=
  object [("$code", str "en"); ("$name", str "English"); ("$dir", str "ltr");
          ("hello", str "Hello"); ("bye", str "Goodbye"); ("upload", str "Upload");
          ("greetUser", greet_en)].

Definition es : Translation :=
  object [("$code", str "es"); ("$name", str "Spanish"); ("$dir", str "ltr");
          ("hello", str "Hola"); ("bye", str "Adios")].

Definition es_mx : Translation :=
  object [("$code", str "es-MX"); ("$name", str "Spanish (Mexico)"); ("$dir", str "ltr");
          ("hello", str "Quiubo")].

Definition fr : Translation :=
  object [("$code", str "fr"); ("$name", str "French"); ("$dir", str "ltr");
          ("hello", str "Bonjour")].

(** A regional entry that blanks a term of its base language. *)
Definition en_us_blank : Translation :=
  object [("$code", str "en-US"); ("$name", str "English (US)"); ("$dir", str "ltr");
          ("hello", str "")].

Definition en_us : Translation :=
  object [("$code", str "en-US"); ("$name", str "English (US)"); ("$dir", str "ltr");
          ("hello", str "Howdy")].

Definition en_greet : Translation := object [("$code", str "en"); ("greet", str "Hi")].
Definition en_bye : Translation := object [("$code", str "en"); ("bye", str "Bye")].

(** Hosts 0 and 1 follow the document; host 2 carries [lang="fr"], host 3
    [lang="en_US"], host 4 [lang="en-US"], host 5 [lang="123"]. *)
Definition host_langs (h : Host) : string :=
  match h with
  | 2 => "fr"
  | 3 => "en_US"
  | 4 => "en-US"
  | 5 => "123"
  | _ => ""
  end.

Definition page_en : Dom := page "en" host_langs.
Definition page_es_mx : Dom := page "es-MX" host_langs.
Definition page_xx : Dom := page "xx" host_langs.

Definition registered (dom : Dom) (ts : list Translation) : state :=
  snd (@registerTranslation Reference.platform dom ts (initial dom)).

(** The states of the scenarios below. *)
Definition spanish : state := registered page_es_mx [en; es; es_mx].
Definition blanked : state := registered page_en [en; en_us_blank].
Definition english : state := registered page_en [en].
Definition unknown : state := registered page_xx [en].
Definition french : state := registered page_en [en; fr].
Definition greeted : state := registered page_en [en_greet].
Definition american : state := registered page_en [en; en_us].

Definition page_fr : Dom := page "fr" host_langs.
Definition french_page : state := registered page_fr [en; fr].

(** Hosts 0 and 1 attached to the English page. *)
Definition attached : state := hostConnected 1 (hostConnected 0 english).

End Samples.

(** ** Further sample data *)

Module Scenes.

(** A second registration for English that rewrites [hello]. *)
Definition en_again : Translation :=
  object [("$code", str "EN"); ("hello", str "Hi there")].


(** A translation registered with an empty code. *)
Definition nameless : Translation :=
  object [("$code", str ""); ("hello", str "Hello from nowhere")].

(** An English translation whose own [toString] is the empty string, and the
    module after registering it. *)
Definition en_shadowing : Translation :=
  object [("$code", str "en"); ("toString", str "")].

Definition shadowing : state := Samples.registered Samples.page_en [en_shadowing].

(** Hosts 0, 1 and 0 again attach, host 1 detaches. *)
Definition comings_and_goings : list event :=
  [EHostConnected 0; EHostConnected 1; EHostConnected 0; EHostDisconnected 1].

(** The registry of src/index.ts after [registerTranslation(en, es)]. *)
Definition index_registered : state :=
  snd (@Index.registerTranslation Reference.platform Samples.page_en
         [Samples.en; Samples.es] (initial Samples.page_en)).

(** No document: the module runs on a server. *)
Definition server : Dom :=
  mkDom false "" "" "" (λ h, lit_element (Samples.host_langs h)).

(** A component in the shadow tree of a host inside [<div lang="fr">]. *)
Definition french_div : Localize.element :=
  Localize.Element (Some "fr") (Localize.Parent (Localize.Element None Localize.Document)).

Definition shadowed : Localize.element :=
  Localize.Element None
    (Localize.Parent
       (Localize.Element None
          (Localize.ShadowRoot (Localize.Element None (Localize.Parent french_div))))).

Definition bare : Localize.element := Localize.Element None Localize.Document.

(** Host 0 is the shadowed component; every other host sits directly under
    a document without [lang]. *)
Definition shadow_page : Localize.Page :=
  Localize.mkPage (λ h, match h with 0 => shadowed | _ => bare end) (λ _, true).

Definition bare_page : Localize.Page :=
  Localize.mkPage (λ _, bare) (λ _, true).

(** src/localize.ts after [registerTranslation(en, fr)]. *)
Definition localize_registered : Localize.state :=
  snd (@Localize.registerTranslation Reference.platform [Samples.en; Samples.fr]
         (Localize.mkState [] ∅ None [])).

(** ... with hosts 0 and 1 connected on the bare page. *)
Definition localize_connected : Localize.state :=
  Localize.connectedCallback bare_page 1
    (Localize.connectedCallback bare_page 0 localize_registered).

End Scenes.

(** * Properties *)

Lemma hit_yields o key :
  hit o key = true → yields o key (read o key).
Proof.
  destruct o as [t|]; cbn [hit read]; [|intros Hx; discriminate Hx].
  intros Hv. by exists t.
Qed.

Lemma yields_hit o key v :
  yields o key v → hit o key = true ∧ read o key = v.
Proof.
  intros (t & -> & Hk & Hv). cbn [hit read]. by rewrite Hk.
Qed.

Lemma hit_false_silent o key :
  hit o key = false → silent o key.
Proof. intros Hh t ->. exact Hh. Qed.

Lemma silent_hit o key :
  silent o key → hit o key = false.
Proof.
  intros Hs. destruct o as [t|]; cbn [hit]; [|reflexivity]. by apply Hs.
Qed.

Lemma truthy_part_lookup (t : Translation) key :
  truthy_part t !! key =
    match t !! key with
    | Some v => if truthy v then Some v else None
    | None => None
    end.
Proof.
  unfold truthy_part. destruct (t !! key) as [v|] eqn:E.
  - destruct (truthy v) eqn:Hv.
    + apply map_lookup_filter_Some. by split.
    + apply map_lookup_filter_None. right. intros v' Hv'. simpl.
      rewrite E in Hv'. injection Hv' as <-. by rewrite Hv.
  - apply map_lookup_filter_None. by left.
Qed.

Lemma inherited_none key :
  not_inherited key → inherited key = Prim PUndefined.
Proof. unfold not_inherited, inherited. by intros ->. Qed.

Lemma hit_truthy_part o key :
  not_inherited key →
  hit (truthy_part <$> o) key = hit o key.
Proof.
  intros Hkey. destruct o as [t|]; [|reflexivity].
  cbn [fmap option_fmap option_map hit]. unfold prop. rewrite truthy_part_lookup.
  rewrite (inherited_none key Hkey).
  destruct (t !! key) as [v|]; [|reflexivity].
  destruct (truthy v) eqn:Hv; [exact Hv|reflexivity].
Qed.

Lemma read_truthy_part o key :
  hit o key = true → read (truthy_part <$> o) key = read o key.
Proof.
  destruct o as [t|]; [|reflexivity].
  cbn [fmap option_fmap option_map hit read]. unfold prop. rewrite truthy_part_lookup.
  destruct (t !! key) as [v|]; [|reflexivity].
  by intros ->.
Qed.

Section Resolution.

Context `{Platform}.

Lemma getTranslationData_ok σ tag loc :
  Intl_Locale (replace_underscores tag) = Ok loc →
  ∃ d, getTranslationData σ tag = Ok d
       ∧ primary d = region_entry σ loc
       ∧ secondary d = language_entry σ loc.
Proof.
  intros Hloc. unfold getTranslationData. rewrite Hloc.
  eexists. split; [reflexivity|]. by split.
Qed.

Lemma getTranslationData_throw σ tag e :
  Intl_Locale (replace_underscores tag) = Throw e →
  getTranslationData σ tag = Throw e.
Proof. intros Hloc. unfold getTranslationData. by rewrite Hloc. Qed.

Lemma term_ok dom σ h key args loc :
  Intl_Locale (replace_underscores (lang dom σ h)) = Ok loc →
  term dom σ h key args =
    if hit (region_entry σ loc) key
    then (render (read (region_entry σ loc) key) args, σ)
    else if hit (language_entry σ loc) key
    then (render (read (language_entry σ loc) key) args, σ)
    else if hit (fallback σ) key
    then (render (read (fallback σ) key) args, σ)
    else (Ok (PStr key), log_error (no_translation key) σ).
Proof.
  intros Hloc. unfold term.
  destruct (getTranslationData_ok σ _ _ Hloc) as (d & -> & -> & ->). done.
Qed.

Lemma exists_ok dom σ h key options loc :
  Intl_Locale (replace_underscores (default (lang dom σ h) (opt_lang options))) = Ok loc →
  exists_ dom σ h key options =
    (Ok (hit (region_entry σ loc) key
         || hit (language_entry σ loc) key
         || (default false (opt_includeFallback options) && hit (fallback σ) key)), σ).
Proof.
  intros Hloc. unfold exists_.
  destruct (getTranslationData_ok σ _ _ Hloc) as (d & -> & -> & ->).
  by destruct (_ || _).
Qed.

(** C1 (amended). For a host whose effective tag parses to a locale, [term]
    follows the three tiers, first match wins, where a tier matches when the
    value that [entry[key]] reads (an own property of the entry, else the
    property that every object inherits under that name) is truthy: the entry
    for language-region, else the entry for the bare language, else the
    fallback.  The result is the matched value when it is not a function, and
    the result of calling it with the arguments when it is; the state is left
    as it was. *)
Theorem tier_order dom σ h key args loc v :
  Intl_Locale (replace_underscores (lang dom σ h)) = Ok loc →
  first_match (region_entry σ loc) (language_entry σ loc) (fallback σ) key v →
  term dom σ h key args = (render v args, σ).
Proof.
  intros Hloc Hm. rewrite (term_ok _ _ _ _ _ _ Hloc).
  destruct Hm as [v Hy | v Hs Hy | v Hs1 Hs2 Hy].
  - apply yields_hit in Hy as [-> ->]. done.
  - rewrite (silent_hit _ _ Hs).
    apply yields_hit in Hy as [-> ->]. done.
  - rewrite (silent_hit _ _ Hs1), (silent_hit _ _ Hs2).
    apply yields_hit in Hy as [-> ->]. done.
Qed.

End Resolution.

(** The three tiers, one key each, for a host that follows [<html lang="es-MX">]
    with [en] (the fallback), [es] and [es-MX] registered. *)
Lemma tier_order_witness :
  @term Reference.platform Samples.page_es_mx Samples.spanish 0 "hello" []
    = (Ok (PStr "Quiubo"), Samples.spanish)
  ∧ @term Reference.platform Samples.page_es_mx Samples.spanish 0 "bye" []
    = (Ok (PStr "Adios"), Samples.spanish)
  ∧ @term Reference.platform Samples.page_es_mx Samples.spanish 0 "greetUser" [PStr "Ana"]
    = (Ok (PStr "Hello, Ana!"), Samples.spanish).
Proof.
  split; [|split].
  - apply (@tier_order Reference.platform Samples.page_es_mx Samples.spanish 0 "hello" []
             (mkLocale "es" (Some "MX")) (str "Quiubo")); [reflexivity|].
    apply match_region. exists Samples.es_mx. repeat split; reflexivity.
  - apply (@tier_order Reference.platform Samples.page_es_mx Samples.spanish 0 "bye" []
             (mkLocale "es" (Some "MX")) (str "Adios")); [reflexivity|].
    apply match_language.
    + apply hit_false_silent. reflexivity.
    + exists Samples.es. repeat split; reflexivity.
  - apply (@tier_order Reference.platform Samples.page_es_mx Samples.spanish 0 "greetUser" [PStr "Ana"]
             (mkLocale "es" (Some "MX")) Samples.greet_en); [reflexivity|].
    apply match_fallback.
    + apply hit_false_silent. reflexivity.
    + apply hit_false_silent. reflexivity.
    + exists Samples.en. repeat split; reflexivity.
Defined.

(** C1 as stated does not hold: an entry for language-region that defines the
    key with the empty string does not win.  With [en] holding
    [hello: 'Hello'] and [en-US] holding [hello: ''], a host with
    [lang="en-US"] gets ['Hello'], not ['']. *)
Lemma tier_order_defined_key_counterexample :
  ¬ (∀ dom σ h key args loc v,
       @Intl_Locale Reference.platform
         (replace_underscores (@lang Reference.platform dom σ h)) = Ok loc →
       defines (@region_entry Reference.platform σ loc) key v →
       fst (@term Reference.platform dom σ h key args) = render v args).
Proof.
  intros Hclaim.
  specialize (Hclaim Samples.page_en Samples.blanked 4 "hello" []
                (mkLocale "en" (Some "US")) (str "")).
  assert (Hres : fst (@term Reference.platform Samples.page_en Samples.blanked 4 "hello" [])
                 = Ok (PStr "Hello")) by reflexivity.
  rewrite Hres in Hclaim.
  assert (Hbad : Ok (PStr "Hello") = render (str "") []).
  { apply Hclaim; [reflexivity|].
    exists Samples.en_us_blank. split; reflexivity. }
  discriminate Hbad.
Qed.

Section Registry.

Context `{Platform}.

Lemma update_translations dom σ : translations (update dom σ) = translations σ.
Proof. unfold update. by destruct (isClient dom). Qed.

Lemma update_fallback dom σ : fallback (update dom σ) = fallback σ.
Proof. unfold update. by destruct (isClient dom). Qed.

Lemma update_connectedElements dom σ :
  connectedElements (update dom σ) = connectedElements σ.
Proof. unfold update. by destruct (isClient dom). Qed.

Lemma update_requested dom σ :
  requested (update dom σ) =
    (requested σ ++ filter (λ el, el_requestUpdate (element dom el) = true)
                           (connectedElements σ))%list.
Proof. unfold update. by destruct (isClient dom). Qed.

Lemma register_one_ok t σ c :
  code_of t = Some c →
  ∃ σ', register_one t σ = (Ok (), σ')
        ∧ translations σ' =
            <[toLowerCase c :=
                match translations σ !! toLowerCase c with
                | Some old => spread old t
                | None => t
                end]> (translations σ)
        ∧ fallback σ' = Some (default t (fallback σ))
        ∧ connectedElements σ' = connectedElements σ
        ∧ requested σ' = requested σ.
Proof.
  intros Hc. unfold register_one. rewrite Hc.
  destruct (translations σ !! toLowerCase c) as [old|] eqn:Eold;
    destruct (fallback σ) as [f|] eqn:Ef; simpl; rewrite Ef;
    (eexists; split; [reflexivity|]; simpl; by rewrite ?Ef).
Qed.

Lemma spread_lookup (old t : Translation) k :
  spread old t !! k =
    match t !! k with
    | Some v => Some v
    | None => old !! k
    end.
Proof.
  unfold spread. destruct (t !! k) as [v|] eqn:E.
  - by apply lookup_union_Some_l.
  - by rewrite lookup_union_r.
Qed.

(** C2. Registering a translation whose lower-cased [$code] already has an
    entry replaces the entry by the shallow merge of the old entry and the new
    translation, the new translation's properties winning; for a code without
    an entry the translation itself becomes the entry; the entries of the
    other codes are left alone.  The state is arbitrary, so this holds after
    every sequence of registrations. *)
Theorem register_merges dom σ t c :
  code_of t = Some c →
  fst (registerTranslation dom [t] σ) = Ok ()
  ∧ (∀ old, translations σ !! toLowerCase c = Some old →
       ∃ m, translations (snd (registerTranslation dom [t] σ)) !! toLowerCase c = Some m
            ∧ ∀ k, m !! k = match t !! k with
                            | Some v => Some v
                            | None => old !! k
                            end)
  ∧ (translations σ !! toLowerCase c = None →
       translations (snd (registerTranslation dom [t] σ)) !! toLowerCase c = Some t)
  ∧ (∀ code, code ≠ toLowerCase c →
       translations (snd (registerTranslation dom [t] σ)) !! code
       = translations σ !! code).
Proof.
  intros Hc.
  destruct (register_one_ok t σ c Hc) as (σ' & Hone & Htr & _).
  assert (Hcall : registerTranslation dom [t] σ = (Ok (), update dom σ')).
  { unfold registerTranslation, register_each. by rewrite Hone. }
  rewrite Hcall. cbn [fst snd]. rewrite update_translations, Htr.
  split; [done|]. split; [|split].
  - intros old Hold. rewrite Hold. exists (spread old t).
    split; [apply lookup_insert_eq|]. apply spread_lookup.
  - intros Hnone. rewrite Hnone. apply lookup_insert_eq.
  - intros code Hne. by apply lookup_insert_ne.
Qed.

Lemma register_one_keeps_fallback t σ f :
  fallback σ = Some f → fallback (snd (register_one t σ)) = Some f.
Proof.
  intros Hf. unfold register_one. destruct (code_of t) as [c|]; [|done].
  destruct (translations σ !! toLowerCase c); simpl; by rewrite Hf.
Qed.

Lemma register_each_keeps_fallback ts σ f :
  fallback σ = Some f → fallback (snd (register_each ts σ)) = Some f.
Proof.
  revert σ. induction ts as [|t ts IH]; intros σ Hf; [done|].
  simpl. pose proof (register_one_keeps_fallback t σ f Hf) as H1.
  destruct (register_one t σ) as [[[]|e] σ']; simpl in *; [by apply IH|done].
Qed.

Lemma registerTranslation_keeps_fallback dom ts σ f :
  fallback σ = Some f → fallback (snd (registerTranslation dom ts σ)) = Some f.
Proof.
  intros Hf. unfold registerTranslation.
  pose proof (register_each_keeps_fallback ts σ f Hf) as H1.
  destruct (register_each ts σ) as [[[]|e] σ']; cbn [fst snd] in *; [|done].
  by rewrite update_fallback.
Qed.

Lemma term_state dom σ h key args :
  snd (term dom σ h key args) = σ
  ∨ snd (term dom σ h key args) = log_error (no_translation key) σ.
Proof.
  unfold term. destruct (getTranslationData _ _) as [d|e]; [|by left].
  repeat (destruct (hit _ _); [by left|]). by right.
Qed.

Lemma exists_state dom σ h key options :
  snd (exists_ dom σ h key options) = σ.
Proof.
  unfold exists_. destruct (getTranslationData _ _) as [d|e]; [|done].
  by destruct (_ || _).
Qed.

Lemma step_keeps_fallback ev dom σ f :
  fallback σ = Some f → fallback (snd (step ev (dom, σ))) = Some f.
Proof.
  intros Hf. destruct ev; cbn [step snd]; try done.
  - by apply registerTranslation_keeps_fallback.
  - by rewrite update_fallback.
  - by destruct (term_state dom σ h key args) as [-> | ->].
  - by rewrite exists_state.
Qed.

Lemma run_keeps_fallback evs w f :
  fallback (snd w) = Some f → fallback (snd (run evs w)) = Some f.
Proof.
  revert w. induction evs as [|ev evs IH]; intros [dom σ] Hf; [done|].
  simpl. apply IH. by apply (step_keeps_fallback ev dom σ f).
Qed.

(** C4. When nothing has been registered yet, the first translation of the
    first [registerTranslation] call becomes the fallback, and it is still the
    fallback after every later run of the module: registrations (of the same
    code or of others), updates, attachments, lookups. *)
Theorem fallback_is_first dom σ t ts evs :
  fallback σ = None →
  is_Some (code_of t) →
  fallback (snd (registerTranslation dom (t :: ts) σ)) = Some t
  ∧ fallback (snd (run evs (dom, snd (registerTranslation dom (t :: ts) σ)))) = Some t.
Proof.
  intros Hnone [c Hc].
  assert (Hfirst : fallback (snd (registerTranslation dom (t :: ts) σ)) = Some t).
  { destruct (register_one_ok t σ c Hc) as (σ1 & Hone & _ & Hf1 & _).
    rewrite Hnone in Hf1. cbn [default] in Hf1.
    pose proof (register_each_keeps_fallback ts σ1 t Hf1) as H1.
    unfold registerTranslation. cbn [register_each]. rewrite Hone.
    destruct (register_each ts σ1) as [[[]|e] σ']; cbn [fst snd] in *; [|done].
    by rewrite update_fallback. }
  split; [done|]. by apply run_keeps_fallback.
Qed.

(** C3 (amended). When the host's tag parses and neither the entry for
    language-region, nor the entry for the language, nor the fallback reads a
    truthy value for the key, [term] raises nothing: it returns the key, and
    the only change to the state is the line [No translation found for: key]
    added to [console.error].  The stand-alone [term] of src/index.ts does the
    same for every tag. *)
Theorem missing_term_returns_key :
  (∀ dom σ h key args loc,
     Intl_Locale (replace_underscores (lang dom σ h)) = Ok loc →
     silent (region_entry σ loc) key →
     silent (language_entry σ loc) key →
     silent (fallback σ) key →
     term dom σ h key args
     = (Ok (PStr key),
        mkState (connectedElements σ) (translations σ) (fallback σ)
                (documentDirection σ) (documentLanguage σ)
                (console_error σ ++ [("No translation found for: " ++ key)%string])%list
                (requested σ)))
  ∧ (∀ σ tag key args,
       silent (translations σ !! index_subcode tag) key →
       silent (translations σ !! index_code tag) key →
       silent (fallback σ) key →
       Index.term σ tag key args
       = (Ok (PStr key),
          mkState (connectedElements σ) (translations σ) (fallback σ)
                  (documentDirection σ) (documentLanguage σ)
                  (console_error σ ++ [("No translation found for: " ++ key)%string])%list
                  (requested σ))).
Proof.
  split.
  - intros dom σ h key args loc Hloc H1 H2 H3.
    rewrite (term_ok _ _ _ _ _ _ Hloc).
    by rewrite (silent_hit _ _ H1), (silent_hit _ _ H2), (silent_hit _ _ H3).
  - intros σ tag key args H1 H2 H3. unfold Index.term.
    fold (index_subcode tag). fold (index_code tag).
    by rewrite (silent_hit _ _ H1), (silent_hit _ _ H2), (silent_hit _ _ H3).
Qed.

End Registry.

(** The spec's example: [{code: 'en', greet: 'Hi'}] and then
    [{code: 'en', bye: 'Bye'}] leave an [en] entry with both terms. *)
Lemma register_merges_witness :
  ∃ m, translations
         (snd (@registerTranslation Reference.platform Samples.page_en
                 [Samples.en_bye] Samples.greeted)) !! "en" = Some m
       ∧ m !! "greet" = Some (str "Hi")
       ∧ m !! "bye" = Some (str "Bye").
Proof.
  destruct (@register_merges Reference.platform Samples.page_en Samples.greeted
              Samples.en_bye "en" eq_refl) as (_ & Hmerge & _).
  destruct (Hmerge Samples.en_greet eq_refl) as (m & Hm & Hk).
  exists m. split; [exact Hm|]. rewrite !Hk. split; reflexivity.
Defined.

(** [term('xx', 'nonexistent')] with only [en] registered. *)
Lemma missing_term_returns_key_witness :
  fst (@term Reference.platform Samples.page_xx Samples.unknown 0 "nonexistent" [])
    = Ok (PStr "nonexistent")
  ∧ console_error
      (snd (@term Reference.platform Samples.page_xx Samples.unknown 0 "nonexistent" []))
    = ["No translation found for: nonexistent"]
  ∧ fst (@Index.term Reference.platform Samples.unknown "xx" "nonexistent" [])
    = Ok (PStr "nonexistent")
  ∧ console_error
      (snd (@Index.term Reference.platform Samples.unknown "xx" "nonexistent" []))
    = ["No translation found for: nonexistent"].
Proof.
  destruct (@missing_term_returns_key Reference.platform) as [Hcontroller Hindex].
  rewrite (Hcontroller Samples.page_xx Samples.unknown 0 "nonexistent" []
             (mkLocale "xx" None));
    [|reflexivity|apply hit_false_silent; reflexivity ..].
  rewrite (Hindex Samples.unknown "xx" "nonexistent" []);
    [|apply hit_false_silent; reflexivity ..].
  repeat split; reflexivity.
Defined.

(** C3 as stated does not hold for every tag: the host with [lang="123"]
    asks for a key that no tier holds, and [term] ends with the RangeError of
    [Intl.Locale] instead of returning the key. *)
Lemma missing_term_counterexample :
  ¬ (∀ dom σ h key args,
       (∀ loc, @Intl_Locale Reference.platform
                 (replace_underscores (@lang Reference.platform dom σ h)) = Ok loc →
               silent (@region_entry Reference.platform σ loc) key
               ∧ silent (@language_entry Reference.platform σ loc) key) →
       silent (fallback σ) key →
       fst (@term Reference.platform dom σ h key args) = Ok (PStr key)).
Proof.
  intros Hclaim.
  assert (Hres : fst (@term Reference.platform Samples.page_en Samples.english 5
                        "nonexistent" []) = Throw RangeError) by reflexivity.
  rewrite (Hclaim Samples.page_en Samples.english 5 "nonexistent" []) in Hres.
  - discriminate Hres.
  - intros loc Hloc. discriminate Hloc.
  - apply hit_false_silent. reflexivity.
Qed.

(** [registerTranslation(en_greet, es)] on a fresh module, followed by a
    re-registration of [en], an update and the registration of [fr]. *)
Lemma fallback_is_first_witness :
  fallback (snd (@registerTranslation Reference.platform Samples.page_en
                   [Samples.en_greet; Samples.es] (initial Samples.page_en)))
    = Some Samples.en_greet
  ∧ fallback
      (snd (@run Reference.platform
              [ERegisterTranslation [Samples.en_bye]; EUpdate;
               ERegisterTranslation [Samples.fr]]
              (Samples.page_en,
               snd (@registerTranslation Reference.platform Samples.page_en
                      [Samples.en_greet; Samples.es] (initial Samples.page_en)))))
    = Some Samples.en_greet.
Proof.
  apply (@fallback_is_first Reference.platform Samples.page_en
           (initial Samples.page_en) Samples.en_greet [Samples.es]
           [ERegisterTranslation [Samples.en_bye]; EUpdate;
            ERegisterTranslation [Samples.fr]]).
  - reflexivity.
  - exists "en". reflexivity.
Defined.

Section Controller.

Context `{Platform}.

(** C5 (amended). A tag that [Intl.Locale] rejects, underscores replaced by
    hyphens, is not resolved at all and not degraded to a language of its own:
    the error raised by the constructor leaves [term] and [exists] as it is,
    and the state is untouched. *)
Theorem malformed_tag_propagates dom σ h key args options :
  (∀ e, Intl_Locale (replace_underscores (lang dom σ h)) = Throw e →
        term dom σ h key args = (Throw e, σ))
  ∧ (∀ e, Intl_Locale
            (replace_underscores (default (lang dom σ h) (opt_lang options)))
          = Throw e →
          exists_ dom σ h key options = (Throw e, σ)).
Proof.
  split.
  - intros e Hloc. unfold term. by rewrite (getTranslationData_throw _ _ _ Hloc).
  - intros e Hloc. unfold exists_. by rewrite (getTranslationData_throw _ _ _ Hloc).
Qed.

Lemma replace_underscores_idem s :
  replace_underscores (replace_underscores s) = replace_underscores s.
Proof.
  induction s as [|c s IH]; [done|]. simpl. rewrite IH. f_equal.
  destruct (Ascii.eqb c "_") eqn:E; [|by rewrite E]. done.
Qed.

Lemma getTranslationData_normalized σ tag tag' :
  replace_underscores tag = replace_underscores tag' →
  getTranslationData σ tag = getTranslationData σ tag'.
Proof. intros Heq. unfold getTranslationData. by rewrite Heq. Qed.

Lemma replace_underscores_no_underscore s :
  has_underscore (replace_underscores s) = false.
Proof.
  induction s as [|c s IH]; [reflexivity|].
  cbn [replace_underscores has_underscore]. rewrite IH.
  destruct (Ascii.eqb c "_") eqn:E; [reflexivity|]. by rewrite E.
Qed.

Lemma replace_underscores_same s :
  same_but_separators s (replace_underscores s) = true.
Proof.
  induction s as [|c s IH]; [reflexivity|].
  cbn [replace_underscores same_but_separators]. rewrite IH.
  unfold is_separator. destruct (Ascii.eqb c "_") eqn:E.
  - rewrite orb_true_r. reflexivity.
  - by rewrite Ascii.eqb_refl.
Qed.

Lemma replace_underscores_kept s :
  has_underscore s = false → replace_underscores s = s.
Proof.
  induction s as [|c s IH]; [reflexivity|].
  cbn [replace_underscores has_underscore]. intros Hno.
  apply orb_false_iff in Hno as [Hc Hs]. by rewrite Hc, (IH Hs).
Qed.

Lemma same_but_separators_replace s1 s2 :
  same_but_separators s1 s2 = true →
  replace_underscores s1 = replace_underscores s2.
Proof.
  revert s2. induction s1 as [|c1 s1 IH]; intros [|c2 s2] Hsame;
    try discriminate Hsame; [reflexivity|].
  cbn [same_but_separators] in Hsame. apply andb_true_iff in Hsame as [Hc Hs].
  cbn [replace_underscores]. rewrite (IH s2 Hs). f_equal.
  apply orb_true_iff in Hc as [Hc|Hc].
  - apply Ascii.eqb_eq in Hc. by subst.
  - apply andb_true_iff in Hc as [H1 H2]. unfold is_separator in H1, H2.
    apply orb_true_iff in H1 as [H1|H1]; apply orb_true_iff in H2 as [H2|H2];
      rewrite ?H1, ?H2; try reflexivity.
    + apply Ascii.eqb_eq in H2. subst c2. by destruct (Ascii.eqb c1 "_").
    + apply Ascii.eqb_eq in H1. subst c1. by destruct (Ascii.eqb c2 "_").
    + apply Ascii.eqb_eq in H1. apply Ascii.eqb_eq in H2. by subst.
Qed.

(** C6. Every underscore of a tag is turned into a hyphen before the tag is
    parsed (nothing else changes, and no underscore is left), so two tags that
    differ only in the spelling of their separators, an underscore here where
    there is a hyphen there, resolve alike: [getTranslationData], [term] and
    [exists] give the same result, messages and state included. *)
Theorem underscore_is_hyphen dom σ h1 h2 key args :
  same_but_separators (lang dom σ h1) (lang dom σ h2) = true →
  (∀ tag, has_underscore (replace_underscores tag) = false
          ∧ same_but_separators tag (replace_underscores tag) = true
          ∧ (has_underscore tag = false → replace_underscores tag = tag))
  ∧ getTranslationData σ (lang dom σ h1) = getTranslationData σ (lang dom σ h2)
  ∧ term dom σ h1 key args = term dom σ h2 key args
  ∧ (∀ options, opt_lang options = None →
       exists_ dom σ h1 key options = exists_ dom σ h2 key options)
  ∧ (∀ tag tag' incl,
       same_but_separators tag tag' = true →
       exists_ dom σ h1 key (mkOptions (Some tag) incl)
       = exists_ dom σ h1 key (mkOptions (Some tag') incl)).
Proof.
  intros Hsame.
  pose proof (getTranslationData_normalized σ _ _
                (same_but_separators_replace _ _ Hsame)) as Hd.
  split; [|split; [exact Hd|split; [|split]]].
  - intros tag. split; [apply replace_underscores_no_underscore|].
    split; [apply replace_underscores_same|apply replace_underscores_kept].
  - unfold term. by rewrite Hd.
  - intros options Hnone. unfold exists_. rewrite Hnone.
    cbn [from_option]. by rewrite Hd.
  - intros tag tag' incl Htags. unfold exists_. cbn [opt_lang from_option id].
    by rewrite (getTranslationData_normalized σ tag tag'
                  (same_but_separators_replace _ _ Htags)).
Qed.

Lemma term_result_by_tag dom σ h dom' σ' h' key args :
  translations σ' = translations σ →
  fallback σ' = fallback σ →
  lang dom' σ' h' = lang dom σ h →
  fst (term dom' σ' h' key args) = fst (term dom σ h key args).
Proof.
  intros Htr Hfb Hlang. unfold term, getTranslationData.
  rewrite Hlang, Htr, Hfb.
  destruct (Intl_Locale _) as [loc|e]; [|done]. cbn [primary secondary].
  by repeat (destruct (hit _ _); [done|]).
Qed.

(** C7. The effective locale of a host is its own [lang] when that is not
    empty and the document language otherwise, lower-cased in both cases, and
    it is what [term] resolves against: with the same registry and fallback,
    two hosts with the same effective locale get the same result. *)
Theorem effective_locale dom σ h :
  (el_lang (element dom h) ≠ "" →
     lang dom σ h = toLowerCase (el_lang (element dom h)))
  ∧ (el_lang (element dom h) = "" →
       lang dom σ h = toLowerCase (documentLanguage σ))
  ∧ (∀ dom' σ' h' key args,
       translations σ' = translations σ →
       fallback σ' = fallback σ →
       lang dom' σ' h' = lang dom σ h →
       fst (term dom' σ' h' key args) = fst (term dom σ h key args)).
Proof.
  split; [|split].
  - intros Hne. unfold lang, or_else.
    destruct (String.eqb_spec (el_lang (element dom h)) ""); [done|done].
  - intros Hempty. unfold lang, or_else. by rewrite Hempty.
  - intros dom' σ' h' key args. apply term_result_by_tag.
Qed.

Lemma hit_true_iff o key :
  hit o key = true ↔ ∃ v, yields o key v.
Proof.
  split.
  - intros Hh. eexists. by apply hit_yields.
  - intros [v Hy]. by apply yields_hit in Hy as [? _].
Qed.

(** C8. [exists] never changes the state.  When the tag parses, it answers
    true exactly when the read of the key in the entry for language-region or
    in the entry for the language (an own property, else the inherited one)
    is truthy, or [includeFallback] is given as true and the read in the
    fallback is; without [includeFallback] the fallback is not consulted. *)
Theorem exists_tiers dom σ h key options :
  snd (exists_ dom σ h key options) = σ
  ∧ (∀ loc,
       Intl_Locale (replace_underscores (default (lang dom σ h) (opt_lang options)))
         = Ok loc →
       ∃ b, fst (exists_ dom σ h key options) = Ok b
            ∧ (b = true ↔
                 (∃ v, yields (region_entry σ loc) key v)
                 ∨ (∃ v, yields (language_entry σ loc) key v)
                 ∨ (opt_includeFallback options = Some true
                    ∧ ∃ v, yields (fallback σ) key v))).
Proof.
  split; [apply exists_state|].
  intros loc Hloc. rewrite (exists_ok _ _ _ _ _ _ Hloc). cbn [fst].
  eexists. split; [reflexivity|].
  rewrite !orb_true_iff, andb_true_iff, !hit_true_iff.
  destruct (opt_includeFallback options) as [[|]|]; cbn [from_option id];
    intuition (try congruence).
Qed.

End Controller.

(** A host with [lang="123"]: the constructor rejects the tag, and both
    [term] and [exists] end with its RangeError. *)
Lemma malformed_tag_propagates_witness :
  @term Reference.platform Samples.page_en Samples.english 5 "hello" []
    = (Throw RangeError, Samples.english)
  ∧ @exists_ Reference.platform Samples.page_en Samples.english 0 "hello"
      (mkOptions (Some "") (Some true))
    = (Throw RangeError, Samples.english).
Proof.
  split.
  - apply (proj1 (@malformed_tag_propagates Reference.platform Samples.page_en
                    Samples.english 5 "hello" [] (mkOptions None None)) RangeError).
    reflexivity.
  - apply (proj2 (@malformed_tag_propagates Reference.platform Samples.page_en
                    Samples.english 0 "hello" [] (mkOptions (Some "") (Some true)))
             RangeError).
    reflexivity.
Defined.

(** C5 as stated does not hold: for the host with [lang="123"], a tag that
    does not parse, [term] and [exists] do not return, although the fallback
    [en] holds the requested term. *)
Lemma malformed_tag_counterexample :
  ¬ (∀ dom σ h key args options,
       @Intl_Locale Reference.platform
         (replace_underscores (@lang Reference.platform dom σ h)) = Throw RangeError →
       is_ok (fst (@term Reference.platform dom σ h key args)) = true
       ∧ is_ok (fst (@exists_ Reference.platform dom σ h key options)) = true).
Proof.
  intros Hclaim.
  destruct (Hclaim Samples.page_en Samples.english 5 "hello" []
              (mkOptions None (Some true)) eq_refl) as [Hterm _].
  assert (Hres : fst (@term Reference.platform Samples.page_en Samples.english 5 "hello" [])
                 = Throw RangeError) by reflexivity.
  rewrite Hres in Hterm. discriminate Hterm.
Qed.

(** Hosts 3 and 4 carry [lang="en_US"] and [lang="en-US"]. *)
Lemma underscore_is_hyphen_witness :
  @term Reference.platform Samples.page_en Samples.american 3 "hello" []
    = @term Reference.platform Samples.page_en Samples.american 4 "hello" []
  ∧ @term Reference.platform Samples.page_en Samples.american 4 "hello" []
    = (Ok (PStr "Howdy"), Samples.american).
Proof.
  split; [|reflexivity].
  apply (@underscore_is_hyphen Reference.platform Samples.page_en Samples.american
           3 4 "hello" []).
  reflexivity.
Defined.

(** Host 2 carries [lang="fr"] on a page whose document language is [en]; it
    resolves as a host without override does on a French page.  Host 0 has
    no override and follows the document. *)
Lemma effective_locale_witness :
  @lang Reference.platform Samples.page_en Samples.french 2 = "fr"
  ∧ @lang Reference.platform Samples.page_en Samples.french 0 = "en"
  ∧ fst (@term Reference.platform Samples.page_fr Samples.french_page 0 "hello" [])
    = fst (@term Reference.platform Samples.page_en Samples.french 2 "hello" [])
  ∧ fst (@term Reference.platform Samples.page_en Samples.french 2 "hello" [])
    = Ok (PStr "Bonjour").
Proof.
  destruct (@effective_locale Reference.platform Samples.page_en Samples.french 2)
    as (Hown & _ & Hterm).
  destruct (@effective_locale Reference.platform Samples.page_en Samples.french 0)
    as (_ & Hambient & _).
  split; [|split; [|split]].
  - rewrite Hown; [reflexivity|]. discriminate.
  - rewrite Hambient; reflexivity.
  - apply Hterm; reflexivity.
  - reflexivity.
Defined.

(** On the Mexican-Spanish page, [upload] is held by the fallback only. *)
Lemma exists_tiers_witness :
  (∃ b, fst (@exists_ Reference.platform Samples.page_es_mx Samples.spanish 0 "upload"
               (mkOptions None None)) = Ok b
        ∧ (b = true ↔
             (∃ v, yields (@region_entry Reference.platform Samples.spanish
                             (mkLocale "es" (Some "MX"))) "upload" v)
             ∨ (∃ v, yields (@language_entry Reference.platform Samples.spanish
                               (mkLocale "es" (Some "MX"))) "upload" v)
             ∨ (@None bool = Some true
                ∧ ∃ v, yields (fallback Samples.spanish) "upload" v)))
  ∧ fst (@exists_ Reference.platform Samples.page_es_mx Samples.spanish 0 "upload"
           (mkOptions None None)) = Ok false
  ∧ fst (@exists_ Reference.platform Samples.page_es_mx Samples.spanish 0 "upload"
           (mkOptions None (Some true))) = Ok true.
Proof.
  split; [|split; reflexivity].
  apply (proj2 (@exists_tiers Reference.platform Samples.page_es_mx Samples.spanish 0
                  "upload" (mkOptions None None)) (mkLocale "es" (Some "MX"))).
  reflexivity.
Defined.

Section ConnectedElements.

Context `{Platform}.

Lemma register_one_frame t σ :
  connectedElements (snd (register_one t σ)) = connectedElements σ
  ∧ requested (snd (register_one t σ)) = requested σ.
Proof.
  unfold register_one. destruct (code_of t) as [c|]; [|done].
  destruct (translations σ !! toLowerCase c); cbn [snd];
    by destruct (fallback _).
Qed.

Lemma register_each_frame ts σ :
  connectedElements (snd (register_each ts σ)) = connectedElements σ
  ∧ requested (snd (register_each ts σ)) = requested σ.
Proof.
  revert σ. induction ts as [|t ts IH]; intros σ; [done|].
  cbn [register_each]. destruct (register_one_frame t σ) as [Hc Hr].
  destruct (register_one t σ) as [[[]|e] σ']; cbn [snd] in *.
  - destruct (IH σ') as [Hc' Hr']. by rewrite Hc', Hr'.
  - done.
Qed.

Lemma filter_not_elem (P : Host → Prop) `{∀ x, Decision (P x)} (h : Host)
    (l : list Host) :
  h ∉ l → h ∉ filter P l.
Proof. intros Hn Hin. apply Hn. by apply list_elem_of_filter in Hin as [_ ?]. Qed.

Lemma update_detached dom σ h :
  h ∉ connectedElements σ →
  (h ∉ connectedElements (update dom σ))
  ∧ ∃ calls, requested (update dom σ) = (requested σ ++ calls)%list ∧ h ∉ calls.
Proof.
  intros Hn. rewrite update_connectedElements, update_requested.
  split; [done|]. eexists. split; [reflexivity|]. by apply filter_not_elem.
Qed.

Lemma step_detached ev dom σ h :
  attaches h ev = false →
  h ∉ connectedElements σ →
  (h ∉ connectedElements (snd (step ev (dom, σ))))
  ∧ ∃ calls, requested (snd (step ev (dom, σ))) = (requested σ ++ calls)%list
             ∧ h ∉ calls.
Proof.
  intros Hev Hn.
  assert (Hquiet : ∀ σ', connectedElements σ' = connectedElements σ →
                         requested σ' = requested σ →
                         (h ∉ connectedElements σ')
                         ∧ ∃ calls, requested σ' = (requested σ ++ calls)%list
                                    ∧ h ∉ calls).
  { intros σ' Hc Hr. rewrite Hc, Hr. split; [done|].
    exists []. split; [by rewrite app_nil_r | apply not_elem_of_nil]. }
  destruct ev as [h'|h'|ts| |h' key args|h' key options|dom']; cbn [step snd].
  - cbn [attaches] in Hev. apply bool_decide_eq_false in Hev.
    split.
    + unfold hostConnected, set_add. cbn [connectedElements set_connectedElements].
      case_bool_decide; [done|].
      rewrite elem_of_app, list_elem_of_singleton. intros [?|?]; [done|]. by subst.
    + exists []. split; [by rewrite app_nil_r | apply not_elem_of_nil].
  - split.
    + unfold hostDisconnected, set_delete. cbn [connectedElements set_connectedElements].
      by apply filter_not_elem.
    + exists []. split; [by rewrite app_nil_r | apply not_elem_of_nil].
  - unfold registerTranslation. destruct (register_each_frame ts σ) as [Hc Hr].
    destruct (register_each ts σ) as [[[]|e] σ']; cbn [snd] in *.
    + rewrite <- Hc in Hn. rewrite <- Hr. by apply update_detached.
    + by apply Hquiet.
  - by apply update_detached.
  - destruct (term_state dom σ h' key args) as [-> | ->]; by apply Hquiet.
  - rewrite exists_state. by apply Hquiet.
  - by apply Hquiet.
Qed.

Lemma run_detached evs w h :
  Forall (λ ev, attaches h ev = false) evs →
  h ∉ connectedElements (snd w) →
  (h ∉ connectedElements (snd (run evs w)))
  ∧ ∃ calls, requested (snd (run evs w)) = (requested (snd w) ++ calls)%list
             ∧ h ∉ calls.
Proof.
  revert w. induction evs as [|ev evs IH]; intros [dom σ] Hall Hn.
  - split; [done|]. exists []. split; [by rewrite app_nil_r | apply not_elem_of_nil].
  - apply Forall_cons in Hall as [Hev Hall]. cbn [run].
    destruct (step_detached ev dom σ h Hev Hn) as (Hn1 & calls1 & Hr1 & Hc1).
    destruct (step ev (dom, σ)) as [dom1 σ1] eqn:Estep. cbn [snd] in *.
    destruct (IH (dom1, σ1) Hall Hn1) as (Hn2 & calls2 & Hr2 & Hc2).
    split; [done|]. exists (calls1 ++ calls2)%list. cbn [snd] in Hr2.
    split.
    + by rewrite Hr2, Hr1, app_assoc.
    + rewrite elem_of_app. by intros [?|?].
Qed.

(** C9. Once [hostDisconnected] has run for a host, the host is out of the
    set of connected elements and stays out through every run in which it
    does not attach again; none of the [requestUpdate] calls made during such
    a run (by [registerTranslation], or by [update] called from the observer
    or by hand) is a call on that host. *)
Theorem detached_host_not_updated evs dom σ h :
  Forall (λ ev, attaches h ev = false) evs →
  (h ∉ connectedElements (hostDisconnected h σ))
  ∧ (h ∉ connectedElements (snd (run evs (dom, hostDisconnected h σ))))
  ∧ ∃ calls,
      requested (snd (run evs (dom, hostDisconnected h σ)))
      = (requested σ ++ calls)%list
      ∧ h ∉ calls.
Proof.
  intros Hall.
  assert (Hout : h ∉ connectedElements (hostDisconnected h σ)).
  { unfold hostDisconnected, set_delete. cbn [connectedElements set_connectedElements].
    intros Hin. by apply list_elem_of_filter in Hin as [Hne _]. }
  split; [done|].
  by apply (run_detached evs (dom, hostDisconnected h σ) h Hall).
Qed.

End ConnectedElements.

(** Case analysis on the tests of the tiers, in the order of the code. *)
Ltac by_tier :=
  repeat match goal with
         | |- context [if hit ?o ?k then _ else _] =>
             let E := fresh "Ehit" in
             destruct (hit o k) eqn:E;
             [cbn [fst snd]; rewrite ?(read_truthy_part _ _ E); reflexivity|]
         end;
  reflexivity.

Section Truthiness.

Context `{Platform}.

(** C10 (amended).  The tiers test the truthiness of the value they read, not
    the presence of the key.  An entry whose own value for the key is falsy
    does not match, whatever the key: with such a value in the entry for
    language-region, [term] returns the first match among the entry for the
    language and the fallback, with such values in both entries it returns
    the fallback's term, and [exists] without [includeFallback] answers
    false.  For a key that is not one of the names that objects inherit,
    [term], [exists] and the stand-alone [term] of src/index.ts answer on a
    state exactly as on the state whose entries and fallback have lost their
    falsy properties. *)
Theorem falsy_is_absent dom σ h key args :
  (∀ loc p v w,
     Intl_Locale (replace_underscores (lang dom σ h)) = Ok loc →
     region_entry σ loc = Some p →
     p !! key = Some v →
     truthy v = false →
     first_match None (language_entry σ loc) (fallback σ) key w →
     term dom σ h key args = (render w args, σ))
  ∧ (∀ loc p v q v' w,
       Intl_Locale (replace_underscores (lang dom σ h)) = Ok loc →
       region_entry σ loc = Some p → p !! key = Some v → truthy v = false →
       language_entry σ loc = Some q → q !! key = Some v' → truthy v' = false →
       (yields (fallback σ) key w → term dom σ h key args = (render w args, σ))
       ∧ exists_ dom σ h key (mkOptions None None) = (Ok false, σ))
  ∧ (not_inherited key →
     fst (term dom (prune σ) h key args) = fst (term dom σ h key args)
     ∧ console_error (snd (term dom (prune σ) h key args))
       = console_error (snd (term dom σ h key args))
     ∧ (∀ options,
          fst (exists_ dom (prune σ) h key options)
          = fst (exists_ dom σ h key options))
     ∧ (∀ tag,
          fst (Index.term (prune σ) tag key args)
          = fst (Index.term σ tag key args))).
Proof.
  assert (Hown : ∀ o (p : Translation) v,
            o = Some p → p !! key = Some v → truthy v = false → hit o key = false).
  { intros o p v -> Hk Hv. cbn [hit]. unfold prop. by rewrite Hk. }
  split; [|split].
  - intros loc p v w Hloc Hp Hk Hv Hm.
    rewrite (term_ok _ _ _ _ _ _ Hloc), (Hown _ p v Hp Hk Hv).
    destruct Hm as [w Hy | w _ Hy | w _ Hs2 Hy].
    + by destruct Hy as (t & ? & _).
    + apply yields_hit in Hy as [-> ->]. reflexivity.
    + rewrite (silent_hit _ _ Hs2).
      apply yields_hit in Hy as [-> ->]. reflexivity.
  - intros loc p v q v' w Hloc Hp Hk Hv Hq Hk' Hv'. split.
    + intros Hy.
      rewrite (term_ok _ _ _ _ _ _ Hloc), (Hown _ p v Hp Hk Hv), (Hown _ q v' Hq Hk' Hv').
      apply yields_hit in Hy as [-> ->]. reflexivity.
    + rewrite (exists_ok _ _ _ _ _ loc); [|exact Hloc].
      by rewrite (Hown _ p v Hp Hk Hv), (Hown _ q v' Hq Hk' Hv').
  - intros Hkey.
    assert (Hentry : ∀ k, translations (prune σ) !! k
                          = truthy_part <$> translations σ !! k).
    { intros k. unfold prune. cbn [translations set_fallback set_translations].
      apply lookup_fmap. }
    assert (Hfb : fallback (prune σ) = truthy_part <$> fallback σ) by done.
    assert (Hlang : lang dom (prune σ) h = lang dom σ h) by done.
    split; [|split; [|split]].
    + unfold term, getTranslationData. rewrite Hlang.
      destruct (Intl_Locale _) as [loc|e]; [|reflexivity]. cbn [primary secondary].
      rewrite !Hentry, Hfb, !(hit_truthy_part _ _ Hkey). by_tier.
    + unfold term, getTranslationData. rewrite Hlang.
      destruct (Intl_Locale _) as [loc|e]; [|reflexivity]. cbn [primary secondary].
      rewrite !Hentry, Hfb, !(hit_truthy_part _ _ Hkey). by_tier.
    + intros options. unfold exists_, getTranslationData. rewrite Hlang.
      destruct (Intl_Locale _) as [loc|e]; [|reflexivity]. cbn [primary secondary].
      rewrite !Hentry, Hfb, !(hit_truthy_part _ _ Hkey).
      destruct (_ || _); reflexivity.
    + intros tag. unfold Index.term.
      rewrite !Hentry, Hfb, !(hit_truthy_part _ _ Hkey). by_tier.
Qed.

End Truthiness.

(** Hosts 0 and 1 are attached; host 0 detaches; translations are registered,
    the document changes and [update] runs, host 1 re-attaches. *)
Lemma detached_host_not_updated_witness :
  (0 ∉ connectedElements
         (snd (@run Reference.platform
                 [ERegisterTranslation [Samples.es]; EDomChanged Samples.page_es_mx;
                  EUpdate; EHostConnected 1; EUpdate]
                 (Samples.page_en, hostDisconnected 0 Samples.attached))))
  ∧ requested
      (snd (@run Reference.platform
              [ERegisterTranslation [Samples.es]; EDomChanged Samples.page_es_mx;
               EUpdate; EHostConnected 1; EUpdate]
              (Samples.page_en, hostDisconnected 0 Samples.attached)))
    = [1; 1; 1].
Proof.
  split; [|reflexivity].
  apply (@detached_host_not_updated Reference.platform
           [ERegisterTranslation [Samples.es]; EDomChanged Samples.page_es_mx;
            EUpdate; EHostConnected 1; EUpdate]
           Samples.page_en Samples.attached 0).
  repeat constructor.
Defined.

(** [en-US] blanks [hello]; the host with [lang="en-US"] gets the [en] term,
    as it does when [en-US] has no [hello] at all. *)
Lemma falsy_is_absent_witness :
  @term Reference.platform Samples.page_en Samples.blanked 4 "hello" []
    = (Ok (PStr "Hello"), Samples.blanked)
  ∧ fst (@term Reference.platform Samples.page_en (prune Samples.blanked) 4 "hello" [])
    = fst (@term Reference.platform Samples.page_en Samples.blanked 4 "hello" []).
Proof.
  destruct (@falsy_is_absent Reference.platform Samples.page_en Samples.blanked 4
              "hello" []) as (Hthrough & _ & Hpruned).
  split.
  - apply (Hthrough (mkLocale "en" (Some "US")) Samples.en_us_blank (str "")
             (str "Hello")).
    + reflexivity.
    + reflexivity.
    + reflexivity.
    + reflexivity.
    + apply match_language.
      * intros t Ht. discriminate Ht.
      * exists Samples.en. repeat split; reflexivity.
  - apply Hpruned. reflexivity.
Defined.

(** C10 as stated does not hold for every key.  With [toString: ''] in the
    [en] entry, which is the fallback too, [term] returns the key
    ['toString']; were the key absent, the read would find the [toString]
    that every object inherits, a function, and [term] would return what it
    answers, ['[object Undefined]']. *)
Lemma falsy_is_absent_counterexample :
  ¬ (∀ dom σ h key args,
       fst (@term Reference.platform dom (prune σ) h key args)
       = fst (@term Reference.platform dom σ h key args)).
Proof.
  intros Hclaim.
  specialize (Hclaim Samples.page_en Scenes.shadowing 0 "toString" []).
  assert (Hwith : fst (@term Reference.platform Samples.page_en Scenes.shadowing 0
                         "toString" []) = Ok (PStr "toString")) by reflexivity.
  assert (Hwithout : fst (@term Reference.platform Samples.page_en
                            (prune Scenes.shadowing) 0 "toString" [])
                     = Ok (PStr "[object Undefined]")) by reflexivity.
  rewrite Hwith, Hwithout in Hclaim. discriminate Hclaim.
Qed.

(** * Further properties of the module *)

Section Broadcast.

Context `{Platform}.

Lemma registerTranslation_frame dom ts σ :
  connectedElements (snd (registerTranslation dom ts σ)) = connectedElements σ.
Proof.
  unfold registerTranslation. destruct (register_each_frame ts σ) as [Hc _].
  destruct (register_each ts σ) as [[[]|e] σ']; cbn [snd] in *; [|exact Hc].
  by rewrite update_connectedElements.
Qed.

Lemma step_NoDup ev dom σ :
  NoDup (connectedElements σ) →
  NoDup (connectedElements (snd (step ev (dom, σ)))).
Proof.
  intros Hnd.
  destruct ev as [h'|h'|ts| |h' key args|h' key options|dom']; cbn [step snd].
  - unfold hostConnected, set_add. cbn [connectedElements set_connectedElements].
    case_bool_decide as Hin; [exact Hnd|].
    apply NoDup_app. split; [exact Hnd|]. split; [|apply NoDup_singleton].
    intros x Hx Hx'. apply list_elem_of_singleton in Hx'. by subst.
  - unfold hostDisconnected, set_delete. cbn [connectedElements set_connectedElements].
    by apply NoDup_filter.
  - by rewrite registerTranslation_frame.
  - by rewrite update_connectedElements.
  - by destruct (term_state dom σ h' key args) as [-> | ->].
  - by rewrite exists_state.
  - exact Hnd.
Qed.

Lemma run_NoDup evs w :
  NoDup (connectedElements (snd w)) →
  NoDup (connectedElements (snd (run evs w))).
Proof.
  revert w. induction evs as [|ev evs IH]; intros [dom σ] Hnd; [exact Hnd|].
  cbn [run]. apply IH.
  pose proof (step_NoDup ev dom σ Hnd) as Hstep.
  by destruct (step ev (dom, σ)).
Qed.

Lemma calls_on_filter (P : Host → Prop) `{∀ x, Decision (P x)} (h : Host)
    (l : list Host) :
  NoDup l →
  calls_on h (filter P l) = if bool_decide (h ∈ l ∧ P h) then 1 else 0.
Proof.
  unfold calls_on. induction l as [|x l IH]; intros Hnd.
  - rewrite bool_decide_eq_false_2; [reflexivity|].
    intros [Hin _]. by apply not_elem_of_nil in Hin.
  - apply NoDup_cons in Hnd as [Hx Hnd]. specialize (IH Hnd).
    rewrite (filter_cons P). destruct (decide (P x)) as [HP|HP].
    + rewrite (filter_cons (λ y, y = h)). destruct (decide (x = h)) as [->|Hne].
      * cbn [length]. rewrite IH.
        rewrite (bool_decide_eq_false_2 (h ∈ l ∧ P h)); [|by intros [? _]].
        rewrite bool_decide_eq_true_2; [reflexivity|]. split; [left|exact HP].
      * rewrite IH. apply (f_equal (λ b : bool, if b then 1 else 0)).
        apply bool_decide_ext. rewrite elem_of_cons.
        split; [intros [? ?]; split; [by right|done]|].
        intros [[->|?] ?]; [done|by split].
    + rewrite IH. apply (f_equal (λ b : bool, if b then 1 else 0)).
      apply bool_decide_ext. rewrite elem_of_cons.
      split; [intros [? ?]; split; [by right|done]|].
      intros [[->|?] ?]; [done|by split].
Qed.

(** X1. In every state the module can reach from its load, one [update]
    calls [requestUpdate] exactly once on each connected host that has the
    method and not at all on any other host, and a [registerTranslation]
    that returns makes the same calls. *)
Theorem broadcast_reaches_each_host_once evs dom0 h :
  ∃ calls,
    requested (update (fst (run evs (dom0, initial dom0)))
                      (snd (run evs (dom0, initial dom0))))
    = (requested (snd (run evs (dom0, initial dom0))) ++ calls)%list
    ∧ calls_on h calls =
        (if bool_decide
              (h ∈ connectedElements (snd (run evs (dom0, initial dom0)))
               ∧ el_requestUpdate (element (fst (run evs (dom0, initial dom0))) h) = true)
         then 1 else 0)
    ∧ ∀ ts,
        fst (registerTranslation (fst (run evs (dom0, initial dom0))) ts
               (snd (run evs (dom0, initial dom0)))) = Ok () →
        requested (snd (registerTranslation (fst (run evs (dom0, initial dom0))) ts
                          (snd (run evs (dom0, initial dom0)))))
        = (requested (snd (run evs (dom0, initial dom0))) ++ calls)%list.
Proof.
  assert (Hnd : NoDup (connectedElements (snd (run evs (dom0, initial dom0))))).
  { apply run_NoDup. apply NoDup_nil_2. }
  destruct (run evs (dom0, initial dom0)) as [dom σ]. cbn [fst snd] in *.
  eexists. split; [apply update_requested|]. split.
  - by apply calls_on_filter.
  - intros ts Hok. unfold registerTranslation in *.
    destruct (register_each_frame ts σ) as [Hc Hr].
    destruct (register_each ts σ) as [[[]|e] σ']; cbn [fst snd] in *; [|discriminate Hok].
    by rewrite update_requested, Hc, Hr.
Qed.

Lemma state_eta σ :
  set_connectedElements (connectedElements σ) σ = σ.
Proof. by destruct σ. Qed.

Lemma set_delete_absent (h : Host) (l : list Host) :
  h ∉ l → set_delete h l = l.
Proof.
  unfold set_delete. induction l as [|x l IH]; intros Hn; [reflexivity|].
  apply not_elem_of_cons in Hn as [Hne Hn].
  rewrite filter_cons_True; [|by intros ->]. by rewrite IH.
Qed.

Lemma set_delete_add (h : Host) (l : list Host) :
  h ∉ l → set_delete h (set_add h l) = l.
Proof.
  intros Hn. unfold set_add. rewrite bool_decide_eq_false_2; [|exact Hn].
  unfold set_delete. rewrite filter_app.
  fold (set_delete h l). rewrite (set_delete_absent h l Hn).
  rewrite filter_cons_False; [|by intros Hne]. by rewrite app_nil_r.
Qed.

(** X2. Attaching is idempotent and detaching is idempotent; detaching a host
    that is not attached changes nothing, and detaching after attaching
    restores the state of a host that was not attached before.  Neither
    touches the membership of another host. *)
Theorem attach_detach_round_trip σ h :
  hostConnected h (hostConnected h σ) = hostConnected h σ
  ∧ hostDisconnected h (hostDisconnected h σ) = hostDisconnected h σ
  ∧ h ∈ connectedElements (hostConnected h σ)
  ∧ (h ∉ connectedElements σ →
       hostDisconnected h σ = σ ∧ hostDisconnected h (hostConnected h σ) = σ)
  ∧ (∀ h', h' ≠ h →
       (h' ∈ connectedElements (hostConnected h σ) ↔ h' ∈ connectedElements σ)
       ∧ (h' ∈ connectedElements (hostDisconnected h σ) ↔ h' ∈ connectedElements σ)).
Proof.
  assert (Hin : h ∈ set_add h (connectedElements σ)).
  { unfold set_add. case_bool_decide as Hd; [exact Hd|].
    apply elem_of_app. right. apply list_elem_of_singleton. reflexivity. }
  assert (Hout : h ∉ set_delete h (connectedElements σ)).
  { unfold set_delete. intros Hx. by apply list_elem_of_filter in Hx as [Hne _]. }
  split; [|split; [|split; [|split]]].
  - unfold hostConnected. cbn [connectedElements set_connectedElements].
    unfold set_add at 1. rewrite bool_decide_eq_true_2; [|exact Hin].
    by destruct σ.
  - unfold hostDisconnected. cbn [connectedElements set_connectedElements].
    rewrite (set_delete_absent h _ Hout). by destruct σ.
  - exact Hin.
  - intros Hn. unfold hostDisconnected, hostConnected.
    cbn [connectedElements set_connectedElements].
    rewrite (set_delete_add h _ Hn), (set_delete_absent h _ Hn).
    split; by destruct σ.
  - intros h' Hne. unfold hostConnected, hostDisconnected, set_add, set_delete.
    cbn [connectedElements set_connectedElements]. split.
    + case_bool_decide; [reflexivity|].
      rewrite elem_of_app, list_elem_of_singleton. split; [|by left].
      intros [?|?]; [assumption|contradiction].
    + rewrite list_elem_of_filter. split; [by intros [_ ?]|by split].
Qed.

(** X3. The document language and direction that hosts without their own
    [lang] or [dir] report are the ones cached by the last [update]: a change
    of the document alone does not show, and [update] on a client brings in
    [<html lang>] (or [navigator.language] when it is empty) and [<html dir>]
    (or [ltr]).  Where there is no document, [update] leaves both as they
    were. *)
Theorem document_change_needs_update dom dom' σ h :
  el_lang (element dom' h) = "" →
  el_dir (element dom' h) = "" →
  (lang dom' (snd (step (EDomChanged dom') (dom, σ))) h
     = toLowerCase (documentLanguage σ)
   ∧ dir dom' (snd (step (EDomChanged dom') (dom, σ))) h
     = toLowerCase (documentDirection σ))
  ∧ (isClient dom' = true →
       lang dom' (update dom' σ) h
         = toLowerCase (or_else (html_lang dom') (navigator_language dom'))
       ∧ dir dom' (update dom' σ) h = toLowerCase (or_else (html_dir dom') "ltr"))
  ∧ (isClient dom' = false →
       lang dom' (update dom' σ) h = toLowerCase (documentLanguage σ)
       ∧ dir dom' (update dom' σ) h = toLowerCase (documentDirection σ)).
Proof.
  intros Hl Hd. unfold lang, dir, update. rewrite Hl, Hd. cbn [step snd].
  split; [by split|]. split; intros ->; by split.
Qed.

End Broadcast.

Section Registrations.

Context `{Platform}.



(** A registration writes the registry and the fallback and nothing else. *)
Lemma register_each_writes ts σ :
  ∃ m f, snd (register_each ts σ) = set_fallback f (set_translations m σ).
Proof.
  revert σ. induction ts as [|t ts IH]; intros σ.
  - exists (translations σ), (fallback σ). by destruct σ.
  - cbn [register_each]. unfold register_one.
    destruct (code_of t) as [c|].
    + set (σ2 := match fallback _ with None => _ | Some _ => _ end).
      assert (H2 : ∃ m f, σ2 = set_fallback f (set_translations m σ)).
      { subst σ2. destruct (translations σ !! toLowerCase c);
          cbn [fallback set_translations]; destruct (fallback σ);
          eexists _, _; reflexivity. }
      destruct H2 as (m2 & f2 & ->).
      destruct (IH (set_fallback f2 (set_translations m2 σ))) as (m & f & Hs).
      exists m, f. by rewrite Hs.
    + exists (translations σ), (fallback σ). by destruct σ.
Qed.


(** The entry of [k] holds a value for [key]. *)
Lemma register_one_keeps_key t σ k (old : Translation) key v :
  translations σ !! k = Some old →
  old !! key = Some v →
  ∃ m v', translations (snd (register_one t σ)) !! k = Some m ∧ m !! key = Some v'.
Proof.
  intros Hk Hkey. destruct (code_of t) as [c|] eqn:Hc.
  - destruct (register_one_ok t σ c Hc) as (σ' & -> & Htr & _). cbn [snd]. rewrite Htr.
    destruct (decide (toLowerCase c = k)) as [->|Hne].
    + rewrite lookup_insert_eq, Hk. destruct (t !! key) as [w|] eqn:Et.
      * exists (spread old t), w. split; [reflexivity|]. by rewrite spread_lookup, Et.
      * exists (spread old t), v. split; [reflexivity|]. by rewrite spread_lookup, Et.
    + rewrite lookup_insert_ne; [|exact Hne]. by exists old, v.
  - unfold register_one. rewrite Hc. by exists old, v.
Qed.

Lemma register_each_keeps_key ts σ k (old : Translation) key v :
  translations σ !! k = Some old →
  old !! key = Some v →
  ∃ m v', translations (snd (register_each ts σ)) !! k = Some m ∧ m !! key = Some v'.
Proof.
  revert σ old v. induction ts as [|t ts IH]; intros σ old v Hk Hkey.
  - by exists old, v.
  - cbn [register_each].
    destruct (register_one_keeps_key t σ k old key v Hk Hkey) as (m & v' & Hm & Hv).
    destruct (register_one t σ) as [[[]|e] σ']; cbn [snd] in *.
    + by apply (IH σ' m v').
    + by exists m, v'.
Qed.

Lemma step_keeps_key ev dom σ k (old : Translation) key v :
  translations σ !! k = Some old →
  old !! key = Some v →
  ∃ m v', translations (snd (step ev (dom, σ))) !! k = Some m ∧ m !! key = Some v'.
Proof.
  intros Hk Hkey.
  destruct ev as [h'|h'|ts| |h' key' args|h' key' options|dom']; cbn [step snd];
    try (by exists old, v).
  - unfold registerTranslation.
    destruct (register_each_keeps_key ts σ k old key v Hk Hkey) as (m & v' & Hm & Hv).
    destruct (register_each ts σ) as [[[]|e] σ']; cbn [snd] in *.
    + rewrite update_translations. by exists m, v'.
    + by exists m, v'.
  - rewrite update_translations. by exists old, v.
  - destruct (term_state dom σ h' key' args) as [-> | ->]; by exists old, v.
  - rewrite exists_state. by exists old, v.
Qed.

(** X5. Nothing the module does removes a registry entry or a property of
    one: a key that the entry of a code holds is still held by the entry of
    that code after every run. *)
Theorem registry_never_shrinks evs w k (old : Translation) key v :
  translations (snd w) !! k = Some old →
  old !! key = Some v →
  ∃ m v', translations (snd (run evs w)) !! k = Some m ∧ m !! key = Some v'.
Proof.
  revert w old v. induction evs as [|ev evs IH]; intros [dom σ] old v Hk Hkey.
  - by exists old, v.
  - cbn [run].
    destruct (step_keeps_key ev dom σ k old key v Hk Hkey) as (m & v' & Hm & Hv).
    destruct (step ev (dom, σ)) as [dom1 σ1] eqn:Estep. cbn [snd] in Hm.
    by apply (IH (dom1, σ1) m v').
Qed.



Lemma register_one_sets_value t σ c key v :
  code_of t = Some c →
  t !! key = Some v →
  ∃ m, translations (snd (register_one t σ)) !! toLowerCase c = Some m
       ∧ m !! key = Some v.
Proof.
  intros Hc Hkey.
  destruct (register_one_ok t σ c Hc) as (σ' & -> & Htr & _). cbn [snd]. rewrite Htr.
  rewrite lookup_insert_eq. eexists. split; [reflexivity|].
  destruct (translations σ !! toLowerCase c); [|exact Hkey].
  by rewrite spread_lookup, Hkey.
Qed.


(** X7. Registration followed by lookup: once [t] is registered under code
    [c] and holds a truthy value for [key], a host whose tag parses to exactly
    that code (language-region), or to that language with an entry for
    language-region whose read of [key] (own or inherited) is falsy, gets
    [t]'s term from [term]: the value, or the result of calling it. *)
Theorem registered_term_is_returned dom σ t c h key args v loc :
  code_of t = Some c →
  t !! key = Some v →
  truthy v = true →
  Intl_Locale (replace_underscores
                 (lang dom (snd (registerTranslation dom [t] σ)) h)) = Ok loc →
  (language_code loc ++ "-" ++ region_code loc = toLowerCase c
   ∨ (language_code loc = toLowerCase c
      ∧ silent (region_entry (snd (registerTranslation dom [t] σ)) loc) key)) →
  term dom (snd (registerTranslation dom [t] σ)) h key args
  = (render v args, snd (registerTranslation dom [t] σ)).
Proof.
  intros Hc Hkey Hv Hloc Hcase.
  assert (Hentry : ∃ m, translations (snd (registerTranslation dom [t] σ))
                          !! toLowerCase c = Some m ∧ m !! key = Some v).
  { destruct (register_one_sets_value t σ c key v Hc Hkey) as (m & Hm & Hmv).
    destruct (register_one_ok t σ c Hc) as (σ' & Hone & _).
    unfold registerTranslation, register_each. rewrite Hone in Hm |- *.
    cbn [snd] in *. rewrite update_translations. by exists m. }
  destruct Hentry as (m & Hm & Hmv).
  rewrite (term_ok _ _ _ _ _ _ Hloc).
  assert (Hyes : ∀ o, o = Some m → hit o key = true ∧ read o key = v).
  { intros o ->. apply yields_hit. exists m. unfold prop. by rewrite Hmv. }
  destruct Hcase as [Heq | [Heq Hsilent]].
  - destruct (Hyes (region_entry (snd (registerTranslation dom [t] σ)) loc))
      as [-> ->]; [|reflexivity].
    unfold region_entry. by rewrite Heq.
  - rewrite (silent_hit _ _ Hsilent).
    destruct (Hyes (language_entry (snd (registerTranslation dom [t] σ)) loc))
      as [-> ->]; [|reflexivity].
    unfold language_entry. by rewrite Heq.
Qed.

End Registrations.

Section Lookups.

Context `{Platform}.

Lemma log_error_changes line σ : log_error line σ ≠ σ.
Proof.
  intros Heq. apply (f_equal (λ s, length (console_error s))) in Heq.
  cbn [console_error log_error] in Heq. rewrite length_app in Heq.
  cbn [length] in Heq. lia.
Qed.

(** X8. [term] and [exists] with [includeFallback: true] tell the same story
    about a host and a key.  When [exists] raises the error of the parser,
    [term] raises it too; [exists] answers false exactly when [term] returns
    the key after adding the line [No translation found for: key] to
    [console.error], and true exactly when the tag parses and [term] leaves
    the state untouched.  Apart from that line, [term] leaves every module
    binding as it was. *)
Theorem term_logs_iff_nothing_exists dom σ h key args :
  (∀ e, fst (exists_ dom σ h key (mkOptions None (Some true))) = Throw e →
        term dom σ h key args = (Throw e, σ))
  ∧ (fst (exists_ dom σ h key (mkOptions None (Some true))) = Ok false
     ↔ term dom σ h key args
       = (Ok (PStr key),
          mkState (connectedElements σ) (translations σ) (fallback σ)
                  (documentDirection σ) (documentLanguage σ)
                  (console_error σ ++ [("No translation found for: " ++ key)%string])%list
                  (requested σ)))
  ∧ (fst (exists_ dom σ h key (mkOptions None (Some true))) = Ok true
     ↔ (∃ loc, Intl_Locale (replace_underscores (lang dom σ h)) = Ok loc)
       ∧ snd (term dom σ h key args) = σ)
  ∧ translations (snd (term dom σ h key args)) = translations σ
  ∧ fallback (snd (term dom σ h key args)) = fallback σ
  ∧ connectedElements (snd (term dom σ h key args)) = connectedElements σ
  ∧ requested (snd (term dom σ h key args)) = requested σ
  ∧ documentLanguage (snd (term dom σ h key args)) = documentLanguage σ
  ∧ documentDirection (snd (term dom σ h key args)) = documentDirection σ.
Proof.
  assert (Hframe : translations (snd (term dom σ h key args)) = translations σ
    ∧ fallback (snd (term dom σ h key args)) = fallback σ
    ∧ connectedElements (snd (term dom σ h key args)) = connectedElements σ
    ∧ requested (snd (term dom σ h key args)) = requested σ
    ∧ documentLanguage (snd (term dom σ h key args)) = documentLanguage σ
    ∧ documentDirection (snd (term dom σ h key args)) = documentDirection σ).
  { destruct (term_state dom σ h key args) as [-> | ->]; repeat split; reflexivity. }
  split; [|split; [|split; [|exact Hframe]]]; clear Hframe.
  - intros e. unfold term, exists_. cbn [opt_lang opt_includeFallback from_option id].
    destruct (getTranslationData σ (lang dom σ h)) as [d|e0].
    + destruct (_ || _); cbn [fst]; intros Hx; discriminate Hx.
    + cbn [fst]. intros Hx. injection Hx as ->. reflexivity.
  - unfold term, exists_. cbn [opt_lang opt_includeFallback from_option id].
    destruct (getTranslationData σ (lang dom σ h)) as [d|e0].
    + destruct (hit (primary d) key), (hit (secondary d) key), (hit (fallback σ) key);
        cbn [orb andb fst]; split; intros Hx;
        try reflexivity; try discriminate Hx;
        exfalso; apply (log_error_changes (no_translation key) σ);
        symmetry; exact (f_equal snd Hx).
    + cbn [fst]. split; intros Hx; discriminate Hx.
  - unfold term, exists_, getTranslationData.
    cbn [opt_lang opt_includeFallback from_option id].
    destruct (Intl_Locale (replace_underscores (lang dom σ h))) as [loc|e0].
    + cbn [primary secondary].
      destruct (hit _ key), (hit _ key), (hit (fallback σ) key);
        cbn [orb andb fst snd]; split; intros Hx;
        try reflexivity; try discriminate Hx;
        try (split; [by exists loc|reflexivity]).
      exfalso. apply (log_error_changes (no_translation key) σ). exact (proj2 Hx).
    + cbn [fst]. split; [intros Hx; discriminate Hx|].
      intros [[loc Hloc] _]. discriminate Hloc.
Qed.

(** X9. The fallback is the translation object that was registered first, not
    the registry entry of its code.  When a later registration under the same
    code adds a key for which the first translation reads nothing truthy, the
    entry of the code holds the key, the fallback does not, and a host of
    another language gets the key back from [term], with the line in
    [console.error]. *)
Theorem fallback_ignores_later_merge dom dom' σ t t2 c key v :
  fallback σ = None →
  code_of t = Some c →
  code_of t2 = Some c →
  silent (Some t) key →
  t2 !! key = Some v →
  (∃ m, translations
          (snd (registerTranslation dom' [t2] (snd (registerTranslation dom [t] σ))))
          !! toLowerCase c = Some m
        ∧ m !! key = Some v)
  ∧ fallback (snd (registerTranslation dom' [t2] (snd (registerTranslation dom [t] σ))))
    = Some t
  ∧ (∀ h args loc,
       Intl_Locale
         (replace_underscores
            (lang dom'
               (snd (registerTranslation dom' [t2] (snd (registerTranslation dom [t] σ))))
               h)) = Ok loc →
       silent (region_entry
                 (snd (registerTranslation dom' [t2] (snd (registerTranslation dom [t] σ))))
                 loc) key →
       silent (language_entry
                 (snd (registerTranslation dom' [t2] (snd (registerTranslation dom [t] σ))))
                 loc) key →
       fst (term dom'
              (snd (registerTranslation dom' [t2] (snd (registerTranslation dom [t] σ))))
              h key args)
       = Ok (PStr key)
       ∧ console_error
           (snd (term dom'
                   (snd (registerTranslation dom' [t2]
                           (snd (registerTranslation dom [t] σ))))
                   h key args))
         = (console_error
              (snd (registerTranslation dom' [t2] (snd (registerTranslation dom [t] σ))))
            ++ [("No translation found for: " ++ key)%string])%list).
Proof.
  intros Hnone Hc Hc2 Hno Hyes.
  assert (Hfb1 : fallback (snd (registerTranslation dom [t] σ)) = Some t).
  { destruct (register_one_ok t σ c Hc) as (σ1 & Hone & _ & Hf & _).
    unfold registerTranslation, register_each. rewrite Hone. cbn [snd].
    rewrite update_fallback, Hf, Hnone. reflexivity. }
  set (σ1 := snd (registerTranslation dom [t] σ)) in *.
  assert (Hfb2 : fallback (snd (registerTranslation dom' [t2] σ1)) = Some t)
    by (by apply registerTranslation_keeps_fallback).
  assert (Hentry : ∃ m, translations (snd (registerTranslation dom' [t2] σ1))
                          !! toLowerCase c = Some m ∧ m !! key = Some v).
  { destruct (register_one_sets_value t2 σ1 c key v Hc2 Hyes) as (m & Hm & Hmv).
    destruct (register_one_ok t2 σ1 c Hc2) as (σ' & Hone & _).
    unfold registerTranslation, register_each. rewrite Hone in Hm |- *.
    cbn [snd] in *. rewrite update_translations. by exists m. }
  set (σ2 := snd (registerTranslation dom' [t2] σ1)) in *.
  split; [exact Hentry|]. split; [exact Hfb2|].
  intros h args loc Hloc Hs1 Hs2.
  rewrite (term_ok _ _ _ _ _ _ Hloc).
  rewrite (silent_hit _ _ Hs1), (silent_hit _ _ Hs2), Hfb2.
  rewrite (silent_hit _ _ Hno). split; reflexivity.
Qed.

End Lookups.

Section IndexModule.

Context `{Platform}.





Lemma index_update_translations dom σ :
  translations (Index.update dom σ) = translations σ.
Proof. reflexivity. Qed.


(** X11. The stand-alone [term] of src/index.ts, and the controller method
    that passes it the host's [lang] or else the document language, return
    the first match among the entry of the whole lower-cased tag (for a tag of
    more than two characters), the entry of its first two characters, and the
    fallback; the state is left as it was. *)
Theorem index_term_first_match σ tag key args v :
  first_match (translations σ !! index_subcode tag)
              (translations σ !! index_code tag) (fallback σ) key v →
  Index.term σ tag key args = (render v args, σ)
  ∧ ∀ dom h,
      or_else (el_lang (element dom h)) (documentLanguage σ) = tag →
      Index.controller_term dom σ h key args = (render v args, σ).
Proof.
  intros Hm.
  assert (Hterm : Index.term σ tag key args = (render v args, σ)).
  { unfold Index.term. fold (index_subcode tag). fold (index_code tag).
    destruct Hm as [w Hy | w Hs Hy | w Hs1 Hs2 Hy].
    - apply yields_hit in Hy as [-> ->]. reflexivity.
    - rewrite (silent_hit _ _ Hs). apply yields_hit in Hy as [-> ->]. reflexivity.
    - rewrite (silent_hit _ _ Hs1), (silent_hit _ _ Hs2).
      apply yields_hit in Hy as [-> ->]. reflexivity. }
  split; [exact Hterm|].
  intros dom h Htag. unfold Index.controller_term. rewrite Htag. exact Hterm.
Qed.

(** X12. For a tag of at most two characters, the empty tag included, the
    stand-alone [term] looks under the empty code before the tag's own code:
    a translation registered with an empty [$code] answers first, and
    without one the entry of the tag and then the fallback decide. *)
Theorem index_short_tag σ tag key args :
  (String.length tag ≤ 2)%nat →
  (∀ v, yields (translations σ !! "") key v →
        Index.term σ tag key args = (render v args, σ))
  ∧ (translations σ !! "" = None →
     ∀ v, first_match None (translations σ !! index_code tag) (fallback σ) key v →
          Index.term σ tag key args = (render v args, σ)).
Proof.
  intros Hlen.
  assert (Hsub : index_subcode tag = "").
  { unfold index_subcode. destruct (Nat.ltb_spec 2 (String.length tag)); [lia|done]. }
  unfold Index.term. fold (index_subcode tag). fold (index_code tag). rewrite Hsub.
  split.
  - intros v Hy. apply yields_hit in Hy as [-> ->]. reflexivity.
  - intros Hnone v Hm. rewrite Hnone. cbn [hit].
    destruct Hm as [w Hy | w _ Hy | w _ Hs2 Hy].
    + by destruct Hy as (t & ? & _).
    + apply yields_hit in Hy as [-> ->]. reflexivity.
    + rewrite (silent_hit _ _ Hs2). apply yields_hit in Hy as [-> ->]. reflexivity.
Qed.

End IndexModule.

(** ** src/localize.ts and src/lit.ts *)

Section DetectLanguage.

Import Localize.

Lemma Element_closest_nearest n el :
  (depth el ≤ n)%nat →
  match Element_closest el with
  | Some found =>
      ∃ l p, found = Element (Some l) p ∧ nearest_lang el = Some l
  | None =>
      match host (getRootNode el) with
      | Some h => (depth h < depth el)%nat ∧ nearest_lang el = nearest_lang h
      | None => nearest_lang el = None
      end
  end.
Proof.
  revert el. induction n as [|n IH]; intros [[l|] up] Hd.
  - by exists l, up.
  - destruct up as [p|h| |]; cbn [depth] in Hd; try lia; reflexivity.
  - by exists l, up.
  - destruct up as [p|h| |]; cbn [depth] in Hd.
    + cbn [Element_closest getRootNode nearest_lang depth].
      assert (Hp : (depth p ≤ n)%nat) by lia. specialize (IH p Hp).
      destruct (Element_closest p) as [found|]; [exact IH|].
      destruct (host (getRootNode p)) as [h|]; [|exact IH].
      destruct IH as [Hlt Heq]. split; [lia|exact Heq].
    + cbn [Element_closest getRootNode host nearest_lang depth]. split; [lia|reflexivity].
    + reflexivity.
    + reflexivity.
Qed.

Lemma getNext_nearest fuel el :
  (depth el + 2 ≤ fuel)%nat →
  ∃ found, getNext fuel (Some el) = Some found
           ∧ lang_property <$> found = nearest_lang el.
Proof.
  revert el. induction fuel as [|fuel IH]; intros el Hf; [lia|].
  cbn [getNext].
  pose proof (Element_closest_nearest (depth el) el (le_n _)) as Hc.
  destruct (Element_closest el) as [found|].
  - destruct Hc as (l & p & -> & Hl). exists (Some (Element (Some l) p)).
    split; [reflexivity|]. by rewrite Hl.
  - destruct (host (getRootNode el)) as [h|].
    + destruct Hc as [Hlt Heq]. rewrite Heq. apply IH. lia.
    + exists None. split; [|by rewrite Hc].
      destruct fuel as [|fuel']; [lia|reflexivity].
Qed.

Lemma detectLanguage_nearest el : detectLanguage el = nearest_lang el.
Proof.
  unfold detectLanguage, closest.
  destruct (getNext_nearest (S (S (depth el))) el) as (found & -> & Hl); [lia|].
  rewrite <- Hl. by destruct found.
Qed.

(** X13. [closest('[lang]', el)] always comes to an end, and
    [detectLanguage] returns the [lang] of the nearest element, starting
    with the element itself, that has the attribute, going up through parents
    and from a shadow root on to its host; it is undefined when no such
    element exists up to the document or the top of a detached tree. *)
Theorem detectLanguage_finds_nearest el :
  is_Some (closest el) ∧ detectLanguage el = nearest_lang el.
Proof.
  unfold detectLanguage, closest.
  destruct (getNext_nearest (S (S (depth el))) el) as (found & -> & Hl); [lia|].
  split; [by eexists|]. rewrite <- Hl. by destruct found.
Qed.

End DetectLanguage.

Section LocalizeModule.

Context `{Platform}.

(** X14. [translate] of src/localize.ts returns the first match among the
    entry of the whole lower-cased tag (for a tag of more than two
    characters), the entry of its first two characters, and the fallback; when
    all three are silent it raises the Error [Cannot find "key" to translate.]
    and never returns the key. *)
Theorem translate_first_match_or_error (σ : Localize.state) tag key args :
  (∀ v, first_match (Localize.translations σ !! index_subcode tag)
                    (Localize.translations σ !! index_code tag)
                    (Localize.fallback σ) key v →
        Localize.translate σ tag key args = Localize.translated_of (render v args))
  ∧ (silent (Localize.translations σ !! index_subcode tag) key →
     silent (Localize.translations σ !! index_code tag) key →
     silent (Localize.fallback σ) key →
     Localize.translate σ tag key args
     = Localize.ThrowsError (Localize.cannot_find key)).
Proof.
  unfold Localize.translate. fold (index_subcode tag). fold (index_code tag).
  split.
  - intros v Hm. destruct Hm as [w Hy | w Hs Hy | w Hs1 Hs2 Hy].
    + apply yields_hit in Hy as [-> ->]. reflexivity.
    + rewrite (silent_hit _ _ Hs). apply yields_hit in Hy as [-> ->]. reflexivity.
    + rewrite (silent_hit _ _ Hs1), (silent_hit _ _ Hs2).
      apply yields_hit in Hy as [-> ->]. reflexivity.
  - intros H1 H2 H3.
    by rewrite (silent_hit _ _ H1), (silent_hit _ _ H2), (silent_hit _ _ H3).
Qed.

Lemma map_get_set_eq el v m :
  Localize.map_get el (Localize.map_set el v m) = Some v.
Proof.
  induction m as [|[k w] m IH]; cbn [Localize.map_set Localize.map_get].
  - by rewrite bool_decide_eq_true_2.
  - case_bool_decide as Hk; cbn [Localize.map_get].
    + by rewrite bool_decide_eq_true_2.
    + by rewrite bool_decide_eq_false_2.
Qed.

Lemma map_get_set_ne el el' v m :
  el ≠ el' →
  Localize.map_get el' (Localize.map_set el v m) = Localize.map_get el' m.
Proof.
  intros Hne. induction m as [|[k w] m IH]; cbn [Localize.map_set Localize.map_get].
  - by rewrite bool_decide_eq_false_2.
  - case_bool_decide as Hk; cbn [Localize.map_get].
    + subst k. by rewrite !bool_decide_eq_false_2.
    + by rewrite IH.
Qed.

Lemma map_set_keys el v m :
  el ∈ map fst m → map fst (Localize.map_set el v m) = map fst m.
Proof.
  induction m as [|[k w] m IH]; intros Hin.
  - by apply not_elem_of_nil in Hin.
  - cbn [Localize.map_set]. case_bool_decide as Hk; [reflexivity|].
    cbn [map fst] in *. apply elem_of_cons in Hin as [->|Hin]; [done|].
    by rewrite IH.
Qed.

Lemma map_get_delete el m :
  Localize.map_get el (Localize.map_delete el m) = None.
Proof.
  unfold Localize.map_delete. induction m as [|[k w] m IH]; [reflexivity|].
  rewrite filter_cons. cbn [fst]. destruct (decide (k ≠ el)) as [Hne|Heq].
  - cbn [Localize.map_get]. by rewrite bool_decide_eq_false_2.
  - exact IH.
Qed.

Lemma refresh_frame page σ el :
  Localize.translations (Localize.refresh page σ el) = Localize.translations σ
  ∧ Localize.fallback (Localize.refresh page σ el) = Localize.fallback σ
  ∧ Localize.connectedElements (Localize.refresh page σ el)
    = Localize.map_set el (Localize.detectLanguage (Localize.place page el))
        (Localize.connectedElements σ)
  ∧ Localize.requested (Localize.refresh page σ el)
    = (Localize.requested σ
       ++ (if Localize.has_requestUpdate page el then [el] else []))%list.
Proof.
  unfold Localize.refresh. destruct (Localize.has_requestUpdate page el);
    cbn; by rewrite ?app_nil_r.
Qed.

Lemma refresh_all page ks σ :
  (∀ k, k ∈ ks → k ∈ map fst (Localize.connectedElements σ)) →
  Localize.translations (fold_left (Localize.refresh page) ks σ)
  = Localize.translations σ
  ∧ Localize.fallback (fold_left (Localize.refresh page) ks σ) = Localize.fallback σ
  ∧ map fst (Localize.connectedElements (fold_left (Localize.refresh page) ks σ))
    = map fst (Localize.connectedElements σ)
  ∧ (∀ el, Localize.map_get el
             (Localize.connectedElements (fold_left (Localize.refresh page) ks σ))
           = if bool_decide (el ∈ ks)
             then Some (Localize.detectLanguage (Localize.place page el))
             else Localize.map_get el (Localize.connectedElements σ))
  ∧ Localize.requested (fold_left (Localize.refresh page) ks σ)
    = (Localize.requested σ
       ++ filter (λ el, Localize.has_requestUpdate page el = true) ks)%list.
Proof.
  revert σ. induction ks as [|k ks IH]; intros σ Hks.
  - cbn [fold_left]. split; [reflexivity|]. split; [reflexivity|].
    split; [reflexivity|]. split; [|by rewrite app_nil_r].
    intros el. rewrite bool_decide_eq_false_2; [reflexivity|apply not_elem_of_nil].
  - cbn [fold_left].
    destruct (refresh_frame page σ k) as (Ht & Hf & Hc & Hr).
    assert (Hkeys : map fst (Localize.connectedElements (Localize.refresh page σ k))
                    = map fst (Localize.connectedElements σ)).
    { rewrite Hc. apply map_set_keys. apply Hks. left. }
    destruct (IH (Localize.refresh page σ k)) as (Ht' & Hf' & Hk' & Hg' & Hr').
    { intros k' Hk'. rewrite Hkeys. apply Hks. by right. }
    rewrite Ht', Hf', Hk', Hr', Ht, Hf, Hkeys, Hr.
    split; [reflexivity|]. split; [reflexivity|]. split; [reflexivity|]. split.
    + intros el. rewrite Hg', Hc.
      destruct (decide (el ∈ ks)) as [Hin|Hnin].
      * rewrite !bool_decide_eq_true_2; [reflexivity|by right|exact Hin].
      * rewrite (bool_decide_eq_false_2 (el ∈ ks)); [|exact Hnin].
        destruct (decide (k = el)) as [->|Hne].
        -- rewrite bool_decide_eq_true_2; [|left]. apply map_get_set_eq.
        -- rewrite bool_decide_eq_false_2.
           ++ by apply map_get_set_ne.
           ++ intros Hx. apply elem_of_cons in Hx as [?|?]; [by subst|done].
    + rewrite <- app_assoc. f_equal. rewrite filter_cons.
      destruct (Localize.has_requestUpdate page k); by destruct (decide _).
Qed.

(** X15. After [forceUpdate] the Map holds, for every connected element, the
    language that [detectLanguage] finds for it on the page as it is now; the
    connected elements and their order are as before, the elements with a
    [requestUpdate] method have been asked to update in that order, and the
    registry and the fallback are untouched. *)
Theorem forceUpdate_refreshes_cache page (σ : Localize.state) :
  map fst (Localize.connectedElements (Localize.forceUpdate page σ))
  = map fst (Localize.connectedElements σ)
  ∧ (∀ el, el ∈ map fst (Localize.connectedElements σ) →
           Localize.map_get el (Localize.connectedElements (Localize.forceUpdate page σ))
           = Some (Localize.nearest_lang (Localize.place page el)))
  ∧ (∀ el, el ∉ map fst (Localize.connectedElements σ) →
           Localize.map_get el (Localize.connectedElements (Localize.forceUpdate page σ))
           = None)
  ∧ Localize.requested (Localize.forceUpdate page σ)
    = (Localize.requested σ
       ++ filter (λ el, Localize.has_requestUpdate page el = true)
                 (map fst (Localize.connectedElements σ)))%list
  ∧ Localize.translations (Localize.forceUpdate page σ) = Localize.translations σ
  ∧ Localize.fallback (Localize.forceUpdate page σ) = Localize.fallback σ.
Proof.
  unfold Localize.forceUpdate.
  destruct (refresh_all page (map fst (Localize.connectedElements σ)) σ)
    as (Ht & Hf & Hk & Hg & Hr); [done|].
  split; [exact Hk|]. split; [|split; [|split; [exact Hr|split; [exact Ht|exact Hf]]]].
  - intros el Hin. rewrite Hg, bool_decide_eq_true_2; [|exact Hin].
    f_equal. apply detectLanguage_nearest.
  - intros el Hnin. rewrite Hg, bool_decide_eq_false_2; [|exact Hnin].
    clear -Hnin. induction (Localize.connectedElements σ) as [|[k w] m IH];
      [reflexivity|].
    cbn [map fst] in Hnin. apply not_elem_of_cons in Hnin as [Hne Hnin].
    cbn [Localize.map_get]. rewrite bool_decide_eq_false_2; [|by intros ->].
    by apply IH.
Qed.

(** X16. The translate directive uses the language stored for its host, not
    the page: right after [connectedCallback] that is the language detected
    at that moment (the empty tag when none was found), and it stays the
    same until the element is connected again or [forceUpdate] runs.  For a
    missing host, a host that is not connected and a host that has been
    disconnected it translates with the empty tag. *)
Theorem directive_uses_cached_language page (σ : Localize.state) h key args :
  Localize.TranslateDirective_render (Localize.connectedCallback page h σ) (Some h) key args
  = Localize.translate σ (default "" (Localize.nearest_lang (Localize.place page h)))
      key args
  ∧ Localize.TranslateDirective_render (Localize.disconnectedCallback h σ) (Some h) key args
    = Localize.translate σ "" key args
  ∧ Localize.TranslateDirective_render σ None key args = Localize.translate σ "" key args
  ∧ (Localize.map_get h (Localize.connectedElements σ) = None →
     Localize.TranslateDirective_render σ (Some h) key args
     = Localize.translate σ "" key args)
  ∧ (h ∈ map fst (Localize.connectedElements σ) →
     Localize.TranslateDirective_render (Localize.forceUpdate page σ) (Some h) key args
     = Localize.translate σ (default "" (Localize.nearest_lang (Localize.place page h)))
         key args).
Proof.
  assert (Hlang : ∀ o : option string,
            match o with Some l => or_else l "" | None => "" end = default "" o).
  { intros [l|]; [|reflexivity]. unfold or_else. cbn [from_option id].
    by destruct (String.eqb_spec l ""). }
  assert (Hreg : ∀ σ1 σ2 tag,
            Localize.translations σ1 = Localize.translations σ2 →
            Localize.fallback σ1 = Localize.fallback σ2 →
            Localize.translate σ1 tag key args = Localize.translate σ2 tag key args).
  { intros σ1 σ2 tag Ht Hf. unfold Localize.translate. by rewrite Ht, Hf. }
  split; [|split; [|split; [|split]]].
  - unfold Localize.TranslateDirective_render, Localize.connectedCallback.
    cbn [Localize.connectedElements Localize.set_connected].
    rewrite map_get_set_eq, Hlang.
    rewrite detectLanguage_nearest. by apply Hreg.
  - unfold Localize.TranslateDirective_render, Localize.disconnectedCallback.
    cbn [Localize.connectedElements Localize.set_connected].
    rewrite map_get_delete. by apply Hreg.
  - reflexivity.
  - intros Hnone. unfold Localize.TranslateDirective_render. by rewrite Hnone.
  - intros Hin. unfold Localize.TranslateDirective_render, Localize.forceUpdate.
    destruct (refresh_all page (map fst (Localize.connectedElements σ)) σ)
      as (Ht & Hf & _ & Hg & _); [done|].
    rewrite Hg, bool_decide_eq_true_2; [|exact Hin].
    rewrite Hlang, detectLanguage_nearest. by apply Hreg.
Qed.

End LocalizeModule.

Section LocalizeLifecycle.

Context `{Platform}.

Lemma localize_register_one_frame t (σ : Localize.state) :
  Localize.connectedElements (snd (Localize.register_one t σ))
  = Localize.connectedElements σ
  ∧ Localize.requested (snd (Localize.register_one t σ)) = Localize.requested σ
  ∧ (∀ f, Localize.fallback σ = Some f →
          Localize.fallback (snd (Localize.register_one t σ)) = Some f)
  ∧ (∀ c, code_of t = Some c →
          fst (Localize.register_one t σ) = Ok ()
          ∧ Localize.translations (snd (Localize.register_one t σ))
            = <[toLowerCase c := t]> (Localize.translations σ)
          ∧ (Localize.fallback σ = None →
             Localize.fallback (snd (Localize.register_one t σ)) = Some t)).
Proof.
  unfold Localize.register_one. destruct (code_of t) as [c|] eqn:Hc.
  - destruct (Localize.fallback σ) as [f|] eqn:Hf;
      cbn [fst snd Localize.connectedElements Localize.requested Localize.fallback
           Localize.translations]; rewrite ?Hf;
      cbn [fst snd Localize.connectedElements Localize.requested Localize.fallback
           Localize.translations].
    + split; [reflexivity|]. split; [reflexivity|]. split; [intros f0 Hx; exact Hx|].
      intros c0 Hx. injection Hx as <-. split; [reflexivity|]. split; [reflexivity|].
      intros Hx. discriminate Hx.
    + split; [reflexivity|]. split; [reflexivity|].
      split; [intros f0 Hx; discriminate Hx|].
      intros c0 Hx. injection Hx as <-. split; [reflexivity|]. split; [reflexivity|].
      intros _. reflexivity.
  - cbn [fst snd]. split; [reflexivity|]. split; [reflexivity|].
    split; [intros f0 Hx; exact Hx|]. intros c0 Hx. discriminate Hx.
Qed.

(** X17. [registerTranslation] of src/localize.ts only writes the registry
    and the fallback: it asks no element to update and leaves the Map of
    connected elements alone.  The first translation registered becomes the
    fallback and later registrations keep it. *)
Theorem localize_registration_is_quiet ts (σ : Localize.state) :
  Localize.connectedElements (snd (Localize.registerTranslation ts σ))
  = Localize.connectedElements σ
  ∧ Localize.requested (snd (Localize.registerTranslation ts σ)) = Localize.requested σ
  ∧ (∀ f, Localize.fallback σ = Some f →
          Localize.fallback (snd (Localize.registerTranslation ts σ)) = Some f)
  ∧ (∀ t rest, ts = t :: rest → coded t → Localize.fallback σ = None →
               Localize.fallback (snd (Localize.registerTranslation ts σ)) = Some t).
Proof.
  assert (Hgen : ∀ ts σ,
    Localize.connectedElements (snd (Localize.registerTranslation ts σ))
    = Localize.connectedElements σ
    ∧ Localize.requested (snd (Localize.registerTranslation ts σ)) = Localize.requested σ
    ∧ (∀ f, Localize.fallback σ = Some f →
            Localize.fallback (snd (Localize.registerTranslation ts σ)) = Some f)).
  { clear ts σ. induction ts as [|t ts IH]; intros σ; [by repeat split|].
    cbn [Localize.registerTranslation].
    destruct (localize_register_one_frame t σ) as (Hc & Hr & Hf & _).
    destruct (Localize.register_one t σ) as [[[]|e] σ']; cbn [snd] in *.
    - destruct (IH σ') as (Hc' & Hr' & Hf').
      rewrite Hc', Hr', Hc, Hr. repeat split; try done.
      intros f Hfb. apply Hf'. by apply Hf.
    - by repeat split. }
  destruct (Hgen ts σ) as (Hc & Hr & Hf).
  split; [exact Hc|]. split; [exact Hr|]. split; [exact Hf|].
  intros t rest -> [c Hcode] Hnone. cbn [Localize.registerTranslation].
  destruct (localize_register_one_frame t σ) as (_ & _ & _ & Hone).
  destruct (Hone c Hcode) as (Hok & _ & Hfb). specialize (Hfb Hnone).
  destruct (Localize.register_one t σ) as [[[]|e] σ']; cbn [fst snd] in *;
    [|discriminate Hok].
  by apply (Hgen rest σ').
Qed.

(** X18. After [disconnectedCallback] the element is out of the Map: a
    [forceUpdate] that follows does not ask it to update and stores no
    language for it. *)
Theorem localize_detached_not_updated page (σ : Localize.state) el :
  Localize.map_get el
    (Localize.connectedElements
       (Localize.forceUpdate page (Localize.disconnectedCallback el σ))) = None
  ∧ ∃ calls,
      Localize.requested (Localize.forceUpdate page (Localize.disconnectedCallback el σ))
      = (Localize.requested σ ++ calls)%list
      ∧ el ∉ calls.
Proof.
  assert (Hout : el ∉ map fst (Localize.connectedElements
                                 (Localize.disconnectedCallback el σ))).
  { unfold Localize.disconnectedCallback, Localize.map_delete.
    cbn [Localize.connectedElements Localize.set_connected].
    intros Hin. apply list_elem_of_fmap in Hin as ([k w] & -> & Hkw).
    by apply list_elem_of_filter in Hkw as [Hne _]. }
  unfold Localize.forceUpdate.
  destruct (refresh_all page
              (map fst (Localize.connectedElements (Localize.disconnectedCallback el σ)))
              (Localize.disconnectedCallback el σ)) as (_ & _ & _ & Hg & Hr); [done|].
  split.
  - rewrite Hg, bool_decide_eq_false_2; [|exact Hout].
    unfold Localize.disconnectedCallback.
    cbn [Localize.connectedElements Localize.set_connected]. apply map_get_delete.
  - eexists. split; [exact Hr|]. intros Hin.
    by apply list_elem_of_filter in Hin as [_ Hin].
Qed.

End LocalizeLifecycle.

Section Server.

Context `{Platform}.

Lemma register_each_document ts σ :
  documentLanguage (snd (register_each ts σ)) = documentLanguage σ
  ∧ documentDirection (snd (register_each ts σ)) = documentDirection σ.
Proof. destruct (register_each_writes ts σ) as (m & f & ->). by split. Qed.

Lemma step_without_document ev dom σ :
  without_document ev = true →
  isClient dom = false →
  isClient (fst (step ev (dom, σ))) = false
  ∧ documentLanguage (snd (step ev (dom, σ))) = documentLanguage σ
  ∧ documentDirection (snd (step ev (dom, σ))) = documentDirection σ.
Proof.
  intros Hev Hdom.
  assert (Hup : ∀ σ', update dom σ' = log_requests
             (filter (λ el, el_requestUpdate (element dom el) = true)
                     (connectedElements σ')) σ').
  { intros σ'. unfold update. by rewrite Hdom. }
  destruct ev as [h'|h'|ts| |h' key args|h' key options|dom']; cbn [step fst snd];
    try (by repeat split).
  - split; [exact Hdom|]. unfold registerTranslation.
    destruct (register_each_document ts σ) as [Hl Hd].
    destruct (register_each ts σ) as [[[]|e] σ']; cbn [snd] in *; [|by split].
    rewrite Hup. by split.
  - rewrite Hup. by repeat split.
  - split; [exact Hdom|].
    by destruct (term_state dom σ h' key args) as [-> | ->].
  - rewrite exists_state. by repeat split.
  - cbn [without_document] in Hev. apply negb_true_iff in Hev. by repeat split.
Qed.

(** X19. Where there is no document (on a server), the module keeps the
    language [en] and the direction [ltr] it was loaded with through every
    run, so a host without [lang] and [dir] of its own reports exactly these,
    lower-cased. *)
Theorem server_signal_is_fixed evs dom h :
  isClient dom = false →
  Forall (λ ev, without_document ev = true) evs →
  documentLanguage (snd (run evs (dom, initial dom))) = "en"
  ∧ documentDirection (snd (run evs (dom, initial dom))) = "ltr"
  ∧ (el_lang (element (fst (run evs (dom, initial dom))) h) = "" →
     lang (fst (run evs (dom, initial dom))) (snd (run evs (dom, initial dom))) h
     = toLowerCase "en")
  ∧ (el_dir (element (fst (run evs (dom, initial dom))) h) = "" →
     dir (fst (run evs (dom, initial dom))) (snd (run evs (dom, initial dom))) h
     = toLowerCase "ltr").
Proof.
  intros Hdom Hall.
  assert (Hinv : ∀ evs w,
            Forall (λ ev, without_document ev = true) evs →
            isClient (fst w) = false →
            documentLanguage (snd (run evs w)) = documentLanguage (snd w)
            ∧ documentDirection (snd (run evs w)) = documentDirection (snd w)).
  { clear. induction evs as [|ev evs IH]; intros [dom σ] Hall Hdom; [by split|].
    apply Forall_cons in Hall as [Hev Hall]. cbn [run fst snd] in *.
    destruct (step_without_document ev dom σ Hev Hdom) as (Hd1 & Hl1 & Hr1).
    destruct (IH (step ev (dom, σ)) Hall Hd1) as [Hl Hr].
    by rewrite Hl, Hr, Hl1, Hr1. }
  destruct (Hinv evs (dom, initial dom) Hall Hdom) as [Hl Hr].
  cbn [snd initial documentLanguage documentDirection] in Hl, Hr.
  rewrite Hdom in Hl, Hr.
  split; [exact Hl|]. split; [exact Hr|]. split.
  - intros Hel. unfold lang. by rewrite Hel, Hl.
  - intros Hel. unfold dir. by rewrite Hel, Hr.
Qed.

End Server.

(** ** Instances of the further properties *)

Lemma broadcast_reaches_each_host_once_witness :
  ∃ calls,
    calls_on 0 calls = 1
    ∧ requested
        (snd (@registerTranslation Reference.platform
                (fst (@run Reference.platform Scenes.comings_and_goings
                        (Samples.page_en, initial Samples.page_en)))
                [Samples.fr]
                (snd (@run Reference.platform Scenes.comings_and_goings
                        (Samples.page_en, initial Samples.page_en)))))
      = (requested (snd (@run Reference.platform Scenes.comings_and_goings
                           (Samples.page_en, initial Samples.page_en))) ++ calls)%list.
Proof.
  destruct (@broadcast_reaches_each_host_once Reference.platform
              Scenes.comings_and_goings Samples.page_en 0) as (calls & _ & Hc & Hr).
  exists calls. split; [exact Hc|]. apply Hr. reflexivity.
Defined.

Lemma attach_detach_round_trip_witness :
  hostDisconnected 0 Samples.english = Samples.english
  ∧ hostDisconnected 0 (hostConnected 0 Samples.english) = Samples.english.
Proof.
  apply (proj1 (proj2 (proj2 (proj2 (attach_detach_round_trip Samples.english 0))))).
  intros Hin. vm_compute in Hin. apply not_elem_of_nil in Hin. exact Hin.
Defined.

Lemma document_change_needs_update_witness :
  @lang Reference.platform Samples.page_es_mx
    (snd (@step Reference.platform (EDomChanged Samples.page_es_mx)
            (Samples.page_en, Samples.english))) 0 = "en"
  ∧ @lang Reference.platform Samples.page_es_mx
      (update Samples.page_es_mx Samples.english) 0 = "es-mx".
Proof.
  destruct (@document_change_needs_update Reference.platform Samples.page_en
              Samples.page_es_mx Samples.english 0 eq_refl eq_refl)
    as ([Hstale _] & Hclient & _).
  split; [exact Hstale|]. apply Hclient. reflexivity.
Defined.


Lemma registry_never_shrinks_witness :
  ∃ m v,
    translations
      (snd (@run Reference.platform
              [ERegisterTranslation [Scenes.en_again]; EUpdate;
               ERegisterTranslation [Samples.es]]
              (Samples.page_en, Samples.english))) !! "en" = Some m
    ∧ m !! "upload" = Some v.
Proof.
  apply (@registry_never_shrinks Reference.platform
           [ERegisterTranslation [Scenes.en_again]; EUpdate;
            ERegisterTranslation [Samples.es]]
           (Samples.page_en, Samples.english) "en" Samples.en "upload" (str "Upload"));
    reflexivity.
Defined.


Lemma registered_term_is_returned_witness :
  @term Reference.platform Samples.page_en
    (snd (@registerTranslation Reference.platform Samples.page_en [Samples.fr]
            Samples.english)) 2 "hello" []
  = (Ok (PStr "Bonjour"),
     snd (@registerTranslation Reference.platform Samples.page_en [Samples.fr]
            Samples.english)).
Proof.
  apply (@registered_term_is_returned Reference.platform Samples.page_en Samples.english
           Samples.fr "fr" 2 "hello" [] (str "Bonjour") (mkLocale "fr" None)).
  - reflexivity.
  - reflexivity.
  - reflexivity.
  - reflexivity.
  - right. split; [reflexivity|]. apply hit_false_silent. reflexivity.
Defined.

Lemma term_logs_iff_nothing_exists_witness :
  @term Reference.platform Samples.page_xx Samples.unknown 0 "nonexistent" []
  = (Ok (PStr "nonexistent"),
     log_error (no_translation "nonexistent") Samples.unknown).
Proof.
  apply (proj1 (proj1 (proj2
           (@term_logs_iff_nothing_exists Reference.platform Samples.page_xx
              Samples.unknown 0 "nonexistent" [])))).
  reflexivity.
Defined.

Lemma fallback_ignores_later_merge_witness :
  fst (@term Reference.platform Samples.page_xx
         (snd (@registerTranslation Reference.platform Samples.page_xx [Samples.en_bye]
                 (snd (@registerTranslation Reference.platform Samples.page_xx
                         [Samples.en_greet] (initial Samples.page_xx)))))
         0 "bye" [])
  = Ok (PStr "bye")
  ∧ console_error
      (snd (@term Reference.platform Samples.page_xx
              (snd (@registerTranslation Reference.platform Samples.page_xx
                      [Samples.en_bye]
                      (snd (@registerTranslation Reference.platform Samples.page_xx
                              [Samples.en_greet] (initial Samples.page_xx)))))
              0 "bye" []))
    = (console_error
         (snd (@registerTranslation Reference.platform Samples.page_xx [Samples.en_bye]
                 (snd (@registerTranslation Reference.platform Samples.page_xx
                         [Samples.en_greet] (initial Samples.page_xx)))))
       ++ ["No translation found for: bye"])%list.
Proof.
  destruct (@fallback_ignores_later_merge Reference.platform Samples.page_xx
              Samples.page_xx (initial Samples.page_xx) Samples.en_greet Samples.en_bye
              "en" "bye" (str "Bye") eq_refl eq_refl eq_refl
              ltac:(apply hit_false_silent; reflexivity) eq_refl)
    as (_ & _ & Hterm).
  apply (Hterm 0 [] (mkLocale "xx" None)).
  - reflexivity.
  - apply hit_false_silent. reflexivity.
  - apply hit_false_silent. reflexivity.
Defined.


Lemma index_term_first_match_witness :
  @Index.term Reference.platform Scenes.index_registered "es-MX" "hello" []
  = (Ok (PStr "Hola"), Scenes.index_registered)
  ∧ @Index.controller_term Reference.platform Samples.page_es_mx Scenes.index_registered
      2 "hello" []
    = (Ok (PStr "Hello"), Scenes.index_registered).
Proof.
  split.
  - apply (@index_term_first_match Reference.platform Scenes.index_registered
             "es-MX" "hello" [] (str "Hola")).
    apply match_language.
    + apply hit_false_silent. reflexivity.
    + exists Samples.es. repeat split; reflexivity.
  - apply (proj2 (@index_term_first_match Reference.platform Scenes.index_registered
                    "fr" "hello" [] (str "Hello")
                    ltac:(apply match_fallback;
                          [apply hit_false_silent; reflexivity
                          |apply hit_false_silent; reflexivity
                          |exists Samples.en; repeat split; reflexivity]))).
    reflexivity.
Defined.

Lemma index_short_tag_witness :
  @Index.term Reference.platform
    (snd (@Index.registerTranslation Reference.platform Samples.page_en
            [Scenes.nameless] Scenes.index_registered)) "es" "hello" []
  = (Ok (PStr "Hello from nowhere"),
     snd (@Index.registerTranslation Reference.platform Samples.page_en
            [Scenes.nameless] Scenes.index_registered))
  ∧ @Index.term Reference.platform Scenes.index_registered "" "hello" []
    = (Ok (PStr "Hello"), Scenes.index_registered).
Proof.
  split.
  - apply (proj1 (@index_short_tag Reference.platform
                    (snd (@Index.registerTranslation Reference.platform Samples.page_en
                            [Scenes.nameless] Scenes.index_registered))
                    "es" "hello" [] ltac:(vm_compute; lia)) (str "Hello from nowhere")).
    exists Scenes.nameless. repeat split; reflexivity.
  - apply (proj2 (@index_short_tag Reference.platform Scenes.index_registered
                    "" "hello" [] ltac:(vm_compute; lia)) eq_refl (str "Hello")).
    apply match_fallback.
    + intros t Ht. discriminate Ht.
    + apply hit_false_silent. reflexivity.
    + exists Samples.en. repeat split; reflexivity.
Defined.

Lemma translate_first_match_or_error_witness :
  @Localize.translate Reference.platform Scenes.localize_registered "fr-CA" "hello" []
  = Localize.Returns (PStr "Bonjour")
  ∧ @Localize.translate Reference.platform Scenes.localize_registered "fr" "nonexistent" []
    = Localize.ThrowsError (Localize.cannot_find "nonexistent").
Proof.
  destruct (@translate_first_match_or_error Reference.platform
              Scenes.localize_registered "fr-CA" "hello" []) as [Hfound _].
  destruct (@translate_first_match_or_error Reference.platform
              Scenes.localize_registered "fr" "nonexistent" []) as [_ Hmissing].
  split.
  - apply (Hfound (str "Bonjour")). apply match_language.
    + apply hit_false_silent. reflexivity.
    + exists Samples.fr. repeat split; reflexivity.
  - apply Hmissing; apply hit_false_silent; reflexivity.
Defined.

Lemma forceUpdate_refreshes_cache_witness :
  Localize.map_get 0
    (Localize.connectedElements
       (Localize.forceUpdate Scenes.shadow_page Scenes.localize_connected))
  = Some (Some "fr").
Proof.
  apply (proj1 (proj2 (forceUpdate_refreshes_cache Scenes.shadow_page
                         Scenes.localize_connected)) 0).
  vm_compute. left.
Defined.

Lemma directive_uses_cached_language_witness :
  @Localize.TranslateDirective_render Reference.platform
    (Localize.forceUpdate Scenes.shadow_page Scenes.localize_connected)
    (Some 0) "hello" []
  = Localize.Returns (PStr "Bonjour")
  ∧ @Localize.TranslateDirective_render Reference.platform Scenes.localize_connected
      (Some 7) "hello" []
    = Localize.Returns (PStr "Hello").
Proof.
  destruct (@directive_uses_cached_language Reference.platform Scenes.shadow_page
              Scenes.localize_connected 0 "hello" []) as (_ & _ & _ & _ & Hforce).
  destruct (@directive_uses_cached_language Reference.platform Scenes.shadow_page
              Scenes.localize_connected 7 "hello" []) as (_ & _ & _ & Habsent & _).
  split.
  - rewrite Hforce; [reflexivity|]. vm_compute. left.
  - rewrite Habsent; reflexivity.
Defined.

Lemma localize_registration_is_quiet_witness :
  Localize.fallback
    (snd (@Localize.registerTranslation Reference.platform [Samples.en; Samples.fr]
            (Localize.mkState [] ∅ None [])))
  = Some Samples.en.
Proof.
  apply (proj2 (proj2 (proj2
           (@localize_registration_is_quiet Reference.platform [Samples.en; Samples.fr]
              (Localize.mkState [] ∅ None []))))
           Samples.en [Samples.fr] eq_refl).
  - exists "en". reflexivity.
  - reflexivity.
Defined.

Lemma server_signal_is_fixed_witness :
  documentLanguage
    (snd (@run Reference.platform
            [ERegisterTranslation [Samples.es]; EHostConnected 0; EUpdate]
            (Scenes.server, initial Scenes.server))) = "en"
  ∧ @lang Reference.platform
      (fst (@run Reference.platform
              [ERegisterTranslation [Samples.es]; EHostConnected 0; EUpdate]
              (Scenes.server, initial Scenes.server)))
      (snd (@run Reference.platform
              [ERegisterTranslation [Samples.es]; EHostConnected 0; EUpdate]
              (Scenes.server, initial Scenes.server))) 0 = "en".
Proof.
  destruct (@server_signal_is_fixed Reference.platform
              [ERegisterTranslation [Samples.es]; EHostConnected 0; EUpdate]
              Scenes.server 0 eq_refl) as (Hl & _ & Hlang & _).
  - repeat constructor.
  - split; [exact Hl|]. apply Hlang. reflexivity.
Defined.
